(** * shotsegments: shot-boundary detection and segment reporting

    A shallow embedding of [main.cpp]: the frame scorer, the marker scan of
    [main], the segment report, and the helpers [timespec], [segmentfile]
    and [save].

    Conventions of the embedding.
    - A C++ [int] is a [Z] inside [[INT_MIN, INT_MAX]]; signed overflow has no
      defined result in C++, so every [int] operation is checked and yields
      [Fail Undefined] when its mathematical result leaves that range.
    - A [double] is an IEEE-754 binary64 value, given by [spec_float] with
      precision 53 and maximal exponent 1024; division is [SFdiv].
    - A [size_t] is an [N] below [2^64]; [npos] is [2^64 - 1].
    - A [std::string] is a [string]; a [std::vector<int>] is a [list Z] that
      grows at its end.
    - Exceptions and undefined results are carried by the [outcome] monad. *)

From Stdlib Require Import ZArith NArith List String Ascii Bool Lia.
From Stdlib Require Import DecimalString SpecFloat Sorted.
From Stdlib Require Import DecimalZ.
Import ListNotations.

Local Open Scope string_scope.
Local Open Scope Z_scope.

(** ** Outcomes: normal return, C++ exception, or no defined behaviour *)

Inductive fault : Type :=
| OutOfRange   (* std::out_of_range, thrown by std::string::substr *)
| CvException  (* cv::Exception, thrown by OpenCV on mismatching operands *)
| Undefined.   (* signed overflow, or a double outside int converted to int *)

Inductive outcome (A : Type) : Type :=
| Ret (a : A)
| Fail (f : fault).

Arguments Ret {A} a.
Arguments Fail {A} f.

Definition bind {A B : Type} (m : outcome A) (k : A -> outcome B) : outcome B :=
  match m with
  | Ret a => k a
  | Fail f => Fail f
  end.

Notation "x <- m ;; k" := (bind m (fun x => k))
  (at level 61, m at next level, right associativity).

(** ** The C++ [int] *)

Module Int.

Definition min : Z := - 2147483648.
Definition max : Z := 2147483647.

Definition in_range (z : Z) : bool := (min <=? z) && (z <=? max).

Definition checked (z : Z) : outcome Z :=
  if in_range z then Ret z else Fail Undefined.

Definition add (a b : Z) : outcome Z := checked (a + b).
Definition sub (a b : Z) : outcome Z := checked (a - b).
Definition mul (a b : Z) : outcome Z := checked (a * b).

(** [a / b] and [a % b] truncate towards zero; the divisors used by the
    program are the non-zero literals 60 and 1000. *)
Definition div (a b : Z) : Z := Z.quot a b.
Definition rem (a b : Z) : Z := Z.rem a b.

(** [std::abs(int)] *)
Definition abs (a : Z) : outcome Z := checked (Z.abs a).

(** [operator<<(std::ostream&, int)] with the default flags: decimal, a
    leading minus sign for negative values. *)
Definition to_string (z : Z) : string := NilZero.string_of_int (Z.to_int z).

End Int.

(** ** Stream formatting: [std::setfill] and [std::setw] *)

Fixpoint replicate (n : nat) (c : ascii) : string :=
  match n with
  | O => EmptyString
  | S n' => String c (replicate n' c)
  end.

(** A field of width [w] with fill character [c]: the default adjustment
    pads on the left, and a text longer than [w] is written whole. *)
Definition setw (w : nat) (c : ascii) (s : string) : string :=
  replicate (w - String.length s) c ++ s.

(** ** The C++ [double] *)

Module Double.

Definition t : Type := spec_float.

Definition prec : Z := 53.
Definition emax : Z := 1024.

(** The double nearest to the integer [z]; it is [z] itself when
    [|z| < 2^53], so the conversion of an [int] to [double] is exact. *)
Definition of_Z (z : Z) : t := binary_normalize prec emax z 0 false.

Definition div (x y : t) : t := SFdiv prec emax x y.

(** Conversion of a [double] to [int]: the fractional part is discarded;
    there is no defined result for NaN, the infinities, and values whose
    truncation is outside [int]. *)
Definition to_int (x : t) : outcome Z :=
  match x with
  | S754_zero _ => Ret 0
  | S754_finite s m e =>
      let mag := Z.shiftl (Zpos m) e in
      Int.checked (if s then - mag else mag)
  | S754_infinity _ | S754_nan => Fail Undefined
  end.

(** [0 < x], as the comparison of doubles has it. *)
Definition positive (x : t) : Prop :=
  SFltb (S754_zero false) x = true.

End Double.

(** ** [timespec] *)

Definition TS_INPUT : Z := 0.
Definition TS_OUTPUT : Z := 1.
Definition TS_DURATION : Z := 2.

(** [int totalSeconds = frame / fps;] *)
Definition whole_seconds (frame : Z) (fps : Double.t) : outcome Z :=
  Double.to_int (Double.div (Double.of_Z frame) fps).

(** The [switch (mode)] of [timespec]. *)
Definition adjust_seconds (mode : Z) (totalSeconds : Z) : outcome Z :=
  match mode with
  | 0 => Int.sub totalSeconds (Int.rem totalSeconds 60)
  | 1 => Ret (Int.rem totalSeconds 60)
  | 2 => Int.add totalSeconds 1
  | _ => Ret totalSeconds
  end.

(** The last lines of [timespec]: hours, minutes, seconds, each in a field of
    width 2 filled with ['0']. *)
Definition hms (totalSeconds : Z) : string :=
  let hours := Int.div (Int.div totalSeconds 60) 60 in
  let minutes := Int.rem (Int.div totalSeconds 60) 60 in
  let seconds := Int.rem totalSeconds 60 in
  setw 2 "0" (Int.to_string hours) ++ ":" ++
  setw 2 "0" (Int.to_string minutes) ++ ":" ++
  setw 2 "0" (Int.to_string seconds).

(** The value of [totalSeconds] when [timespec] starts formatting. *)
Definition timespec_seconds (frame : Z) (fps : Double.t) (mode : Z) : outcome Z :=
  totalSeconds <- whole_seconds frame fps ;;
  adjust_seconds mode totalSeconds.

Definition timespec (frame : Z) (fps : Double.t) (mode : Z) : outcome string :=
  totalSeconds <- timespec_seconds frame fps mode ;;
  Ret (hms totalSeconds).

(** ** [segmentfile] *)

Module Str.

(** [std::string::npos], the largest [size_t]. *)
Definition npos : N := 18446744073709551615%N.

Definition size (s : string) : N := N.of_nat (String.length s).

(** Index of the last occurrence of [c] in [s], if any. *)
Fixpoint last_index (c : ascii) (s : string) : option nat :=
  match s with
  | EmptyString => None
  | String a s' =>
      match last_index c s' with
      | Some i => Some (S i)
      | None => if Ascii.eqb a c then Some O else None
      end
  end.

(** [s.rfind(c)] *)
Definition rfind (s : string) (c : ascii) : N :=
  match last_index c s with
  | Some i => N.of_nat i
  | None => npos
  end.

(** [s.substr(pos, n)]: throws [std::out_of_range] when [pos > s.size()],
    and otherwise copies [min(n, s.size() - pos)] characters. *)
Definition substr (s : string) (pos n : N) : outcome string :=
  if (size s <? pos)%N then Fail OutOfRange
  else Ret (String.substring (N.to_nat pos)
                             (N.to_nat (N.min n (size s - pos))) s).

(** [c] occurs in [s]. *)
Fixpoint contains (c : ascii) (s : string) : bool :=
  match s with
  | EmptyString => false
  | String a s' => Ascii.eqb a c || contains c s'
  end.

End Str.

Definition segmentfile (basis : string) (segment : Z) : outcome string :=
  let pos := Str.rfind basis "." in
  stem <- Str.substr basis 0 pos ;;
  ext <- Str.substr basis pos Str.npos ;;
  Ret (stem ++ "-" ++ Int.to_string segment ++ ext).

(** ** [save] *)

(** The file name that [save] hands to [cv::imwrite]. *)
Definition save_name (frame : Z) (suffix : string) : string :=
  setw 8 "0" (Int.to_string frame) ++ "-" ++ suffix ++ ".jpg".


(** ** Frames and the frame scorer *)

(** A single-channel 8-bit [cv::Mat]: the pixels in row-major order. *)
Record Mat : Type := mkMat {
  rows : Z;
  cols : Z;
  data : list Byte.byte
}.

Definition pixel (b : Byte.byte) : Z := Z.of_N (Byte.to_N b).

(** [cv::saturate_cast<uchar>] *)
Definition saturate_u8 (z : Z) : Byte.byte :=
  match Byte.of_N (Z.to_N (Z.min (Z.max z 0) 255)) with
  | Some b => b
  | None => Byte.x00
  end.

Fixpoint zip_with {A B C : Type} (f : A -> B -> C) (l1 : list A) (l2 : list B)
  : list C :=
  match l1, l2 with
  | a :: l1', b :: l2' => f a b :: zip_with f l1' l2'
  | _, _ => []
  end.

Definition same_size (a b : Mat) : bool :=
  (rows a =? rows b) && (cols a =? cols b).

(** [cv::absdiff(a, b, dst)] on 8-bit matrices: [dst(i) = saturate(|a(i) - b(i)|)];
    operands of different sizes make OpenCV throw. *)
Definition absdiff (a b : Mat) : outcome Mat :=
  if same_size a b then
    Ret (mkMat (rows a) (cols a)
           (zip_with (fun x y => saturate_u8 (Z.abs (pixel x - pixel y)))
                     (data a) (data b)))
  else Fail CvException.

(** The sum of all pixel values. *)
Definition pixel_sum (m : Mat) : Z :=
  fold_right (fun b acc => pixel b + acc) 0 (data m).

(** [cv::sum(m)[0]]: the pixel sum, as a [double]. *)
Definition cv_sum (m : Mat) : Double.t := Double.of_Z (pixel_sum m).

(** [int score = s[0] / numPixels;] after [absdiff] and [sum]. *)
Definition frame_score (current previous : Mat) (numPixels : Z) : outcome Z :=
  diffs <- absdiff current previous ;;
  Double.to_int (Double.div (cv_sum diffs) (Double.of_Z numPixels)).

(** ** Options left by the command line *)

Record options : Type := mkOptions {
  inputFile : string;
  saveImages : bool;
  ffmpeg : bool;
  threshold : Z;
  minDuration : Z;
  verbose : Z
}.

Definition DefaultThreshold : Z := 50.
Definition DefaultMinDuration : Z := 1000.

Definition nl : string := String (ascii_of_nat 10) EmptyString.
Definition dquote : string := String (ascii_of_nat 34) EmptyString.

(** ** The segment report: the last loop of [main] *)

Definition plain_line (segment start stop : Z) : string :=
  Int.to_string segment ++ ": " ++ Int.to_string start ++ " - " ++
  Int.to_string stop ++ nl.

Definition ffmpeg_line (o : options) (fps : Double.t) (segment start stop : Z)
  : outcome string :=
  seek <- timespec start fps TS_INPUT ;;
  offset <- timespec start fps TS_OUTPUT ;;
  len <- Int.sub stop start ;;
  duration <- timespec len fps TS_DURATION ;;
  file <- segmentfile (inputFile o) segment ;;
  Ret ("ffmpeg" ++ " -ss " ++ seek ++ " -i " ++ dquote ++ inputFile o ++ dquote ++
       " -ss " ++ offset ++ " -t " ++ duration ++ " -c copy" ++ " -y" ++
       " " ++ file ++ nl).

(** What is written for a surviving segment. *)
Definition emit (o : options) (fps : Double.t) (segment start stop : Z)
  : outcome string :=
  if ffmpeg o then ffmpeg_line o fps segment start stop
  else Ret (plain_line segment start stop).

(** The body of [for (size_t i = 1; i < markers.size(); i++)], with
    [prev = markers[i - 1]] and [rest] the markers from index [i] on. *)
Fixpoint report_loop (o : options) (fps : Double.t) (segment prev : Z)
  (rest : list Z) : outcome (list string) :=
  match rest with
  | [] => Ret []
  | cur :: rest' =>
      len <- Int.sub cur prev ;;
      if minDuration o <=? len then
        segment' <- Int.add segment 1 ;;
        line <- emit o fps segment' prev cur ;;
        lines <- report_loop o fps segment' cur rest' ;;
        Ret (line :: lines)
      else report_loop o fps segment cur rest'
  end.

Definition report (o : options) (fps : Double.t) (markers : list Z)
  : outcome (list string) :=
  match markers with
  | [] => Ret []
  | first :: rest => report_loop o fps 0 first rest
  end.

(** ** The marker scan: the frame loop of [main] *)

Section Detector.

(** A decoded colour frame, and [cv::cvtColor(_, _, CV_RGB2GRAY)]. *)
Context {Color : Type}.
Variable cvtColor : Color -> Mat.

(** [operator<<(std::ostream&, double)], used for the frame rate only. *)
Variable show_double : Double.t -> string.

Record state : Type := mkState {
  previous : Mat;
  previousColor : Color;
  frame : Z;
  lastScore : Z;
  markers : list Z;
  images : list (string * Color);  (* what [save] wrote, oldest first *)
  trace : list string              (* the [--verbose] lines of the loop *)
}.

(** The body of [while (video.read(currentColor))]. *)
Definition step (o : options) (numPixels : Z) (st : state)
  (currentColor : Color) : outcome state :=
  let current := cvtColor currentColor in
  score <- frame_score current (previous st) numPixels ;;
  delta <- Int.sub score (lastScore st) ;;
  scoreDiff <- Int.abs delta ;;
  let traced :=
    if (1 <? verbose o) ||
       ((verbose o =? 1) && (Int.rem (frame st) 1000 =? 0))
    then ["Frame=" ++ Int.to_string (frame st) ++
          " Score=" ++ Int.to_string score ++
          " Diff=" ++ Int.to_string scoreDiff ++ nl]
    else [] in
  marked <-
    (if (threshold o <? score) && (threshold o <? scoreDiff) then
       saved <-
         (if saveImages o then
            before <- Int.sub (frame st) 1 ;;
            Ret [(save_name before "out", previousColor st);
                 (save_name (frame st) "in", currentColor)]
          else Ret []) ;;
       Ret ((markers st ++ [frame st])%list, saved)
     else Ret (markers st, [])) ;;
  frame' <- Int.add (frame st) 1 ;;
  Ret (mkState current currentColor frame' score (fst marked)
         (images st ++ snd marked)%list (trace st ++ traced)%list).

Fixpoint loop (o : options) (numPixels : Z) (st : state)
  (video : list Color) : outcome state :=
  match video with
  | [] => Ret st
  | currentColor :: video' =>
      st' <- step o numPixels st currentColor ;;
      loop o numPixels st' video'
  end.

(** From the first [video.read] to the closing [markers.push_back]:
    [None] when the stream has no frame. *)
Definition scan (o : options) (video : list Color) : outcome (option state) :=
  match video with
  | [] => Ret None
  | firstColor :: video' =>
      let first := cvtColor firstColor in
      numPixels <- Int.mul (rows first) (cols first) ;;
      let st0 :=
        mkState first firstColor 1 0 [0]
          (if saveImages o then [(save_name 0 "in", firstColor)] else [])
          [] in
      st <- loop o numPixels st0 video' ;;
      final <- Int.sub (frame st) 1 ;;
      Ret (Some (mkState (previous st) (previousColor st) (frame st)
                   (lastScore st) (markers st ++ [final])%list
                   (images st ++
                    (if saveImages o
                     then [(save_name final "out", previousColor st)]
                     else []))%list
                   (trace st)))
  end.

(** ** [main], once the options are parsed *)

Record run : Type := mkRun {
  exit_code : Z;
  out : list string;                (* lines on std::cout *)
  err : list string;                (* lines on std::cerr *)
  written : list (string * Color)   (* image files *)
}.

Definition usage : list string :=
  [ "usage: shotsegments --in <video-file>" ++ nl;
    "                    [--save-images]" ++ nl;
    "                    [--threshold t=" ++ Int.to_string DefaultThreshold ++ "]" ++ nl;
    "                    [--min-duration d=" ++ Int.to_string DefaultMinDuration ++ "]" ++ nl;
    "                    [--ffmpeg]" ++ nl;
    "                    [--verbose[=level]]" ++ nl;
    "                    [--help]" ++ nl;
    nl ].

(** The line written by [if (verbose)] before the first [read]. *)
Definition banner (o : options) (fps : Double.t) : list string :=
  if verbose o =? 0 then [] else ["FPS=" ++ show_double fps ++ nl].

(** [video] is what [cv::VideoCapture] delivers for [inputFile]: nothing
    when it cannot be opened, and otherwise the frame rate and the frames
    that [read] returns until it fails. *)
Definition main (o : options) (video : option (Double.t * list Color))
  : outcome run :=
  if String.eqb (inputFile o) "" then Ret (mkRun 0 usage [] [])
  else
    match video with
    | None => Ret (mkRun 1 [] [inputFile o ++ ": can't open video" ++ nl] [])
    | Some (fps, frames) =>
        scanned <- scan o frames ;;
        match scanned with
        | None =>
            Ret (mkRun 1 (banner o fps)
                   [inputFile o ++ ": need some frames" ++ nl] [])
        | Some st =>
            lines <- report o fps (markers st) ;;
            Ret (mkRun 0 (banner o fps ++ trace st ++ lines)%list []
                   (images st))
        end
    end.

End Detector.

Arguments mkState {Color}.
Arguments mkRun {Color}.

(** ** Reference notions used to state the properties *)

(** The score as the specification words it: the sum of the absolute
    per-pixel differences, divided by the pixel count, truncated. *)
Definition sum_abs_diff (a b : Mat) : Z :=
  fold_right Z.add 0
    (zip_with (fun x y => Z.abs (pixel x - pixel y)) (data a) (data b)).

Definition mean_abs_diff (a b : Mat) : Z :=
  Z.quot (sum_abs_diff a b) (Z.of_nat (List.length (data a))).

(** A matrix of [r] rows and [c] columns holding [r * c] pixels. *)
Definition has_size (r c : Z) (m : Mat) : Prop :=
  rows m = r /\ cols m = c /\ Z.of_nat (List.length (data m)) = r * c.

(** Dimensions that a decoded frame can have: at least one pixel, and a pixel
    count that fits [int numPixels]. *)
Definition frame_dims (r c : Z) : Prop :=
  0 < r /\ 0 < c /\ r * c <= Int.max.

Definition empty_mat : Mat := mkMat 0 0 [].

(** The score of frame [i] of the grayscale stream [gs] against frame [i - 1];
    frame 0 has no predecessor and stands for the initial [lastScore = 0]. *)
Definition score_at (gs : list Mat) (i : nat) : Z :=
  match i with
  | O => 0
  | S j => mean_abs_diff (nth i gs empty_mat) (nth j gs empty_mat)
  end.

(** The dual-threshold rule at frame [i]. *)
Definition cut_at (thr : Z) (gs : list Mat) (i : nat) : bool :=
  (thr <? score_at gs i) &&
  (thr <? Z.abs (score_at gs i - score_at gs (Nat.pred i))).

(** The frame indices [1 .. n - 1] that satisfy the rule, in stream order. *)
Definition detected_cuts (thr : Z) (gs : list Mat) : list Z :=
  map Z.of_nat (filter (cut_at thr gs) (seq 1 (Nat.pred (List.length gs)))).

(** Adjacent marker pairs [(markers[i-1], markers[i])], in order. *)
Definition adjacent (markers : list Z) : list (Z * Z) :=
  combine markers (tl markers).

Definition long_enough (minDur : Z) (p : Z * Z) : bool :=
  minDur <=? snd p - fst p.

(** [l] with its elements numbered [k], [k + 1], ... *)
Fixpoint numbered {A : Type} (k : Z) (l : list A) : list (Z * A) :=
  match l with
  | [] => []
  | a :: l' => (k, a) :: numbered (k + 1) l'
  end.

Fixpoint mapM {A B : Type} (f : A -> outcome B) (l : list A)
  : outcome (list B) :=
  match l with
  | [] => Ret []
  | a :: l' => b <- f a ;; bs <- mapM f l' ;; Ret (b :: bs)
  end.

(** What [emit] writes for a numbered marker pair [(k, (start, stop))]. *)
Definition emit_numbered (o : options) (fps : Double.t) (p : Z * (Z * Z))
  : outcome string :=
  emit o fps (fst p) (fst (snd p)) (snd (snd p)).

Definition plain_numbered (p : Z * (Z * Z)) : string :=
  plain_line (fst p) (fst (snd p)) (snd (snd p)).

(** A stream of ten 1x1 frames in which only frame 5 is a cut at threshold
    50: the scores are 0, 0, 0, 5, 80, 0, 0, 0, 0 for the frames 1 to 9. *)
Definition ten_frames : list Mat :=
  map (fun v => mkMat 1 1 [v])
    [Byte.x00; Byte.x00; Byte.x00; Byte.x00; Byte.x05;
     Byte.x55; Byte.x55; Byte.x55; Byte.x55; Byte.x55].

(** The text after the last [':'] of a timecode. *)
Definition seconds_field (timecode : string) : string :=
  match Str.last_index ":" timecode with
  | Some i => String.substring (S i) (String.length timecode - S i) timecode
  | None => timecode
  end.

(** ** The command line: the first part of [main]

    [getopt_long] is the C library's; what it returns, call after call until
    it returns -1, is what the loop of [main] consumes.  An option with a
    required argument always comes with its [optarg]. *)

Inductive cli_option : Type :=
| OptIn (optarg : string)              (* 'i', --in *)
| OptSaveImages                        (* 's', --save-images *)
| OptThreshold (optarg : string)       (* 't', --threshold *)
| OptMinDuration (optarg : string)     (* 'm', --min-duration *)
| OptFfmpeg                            (* 'f', --ffmpeg *)
| OptVerbose (optarg : option string)  (* 'v', --verbose[=level] *)
| OptHelp                              (* 'h', --help *)
| OptOther.                            (* '?': [default: break;] *)

(** The values of the locals of [main] before the option loop. *)
Definition initial_options : options :=
  mkOptions "" false false DefaultThreshold DefaultMinDuration 0.

Section CommandLine.

(** [atoi] of the C library. *)
Variable atoi : string -> Z.

(** The [switch (c)]: [None] stands for [usage(); return 0;]. *)
Definition set_option (o : options) (c : cli_option) : option options :=
  match c with
  | OptIn optarg =>
      Some (mkOptions optarg (saveImages o) (ffmpeg o) (threshold o)
              (minDuration o) (verbose o))
  | OptSaveImages =>
      Some (mkOptions (inputFile o) true (ffmpeg o) (threshold o)
              (minDuration o) (verbose o))
  | OptThreshold optarg =>
      let t := atoi optarg in
      Some (mkOptions (inputFile o) (saveImages o) (ffmpeg o)
              (if t =? 0 then DefaultThreshold else t)
              (minDuration o) (verbose o))
  | OptMinDuration optarg =>
      let m := atoi optarg in
      Some (mkOptions (inputFile o) (saveImages o) (ffmpeg o) (threshold o)
              (if m =? 0 then DefaultMinDuration else m) (verbose o))
  | OptFfmpeg =>
      Some (mkOptions (inputFile o) (saveImages o) true (threshold o)
              (minDuration o) (verbose o))
  | OptVerbose optarg =>
      Some (mkOptions (inputFile o) (saveImages o) (ffmpeg o) (threshold o)
              (minDuration o)
              (match optarg with Some a => atoi a | None => 1 end))
  | OptHelp => None
  | OptOther => Some o
  end.

(** The [while (1)] loop over the results of [getopt_long]. *)
Fixpoint parse_options (o : options) (cl : list cli_option) : option options :=
  match cl with
  | [] => Some o
  | c :: cl' =>
      match set_option o c with
      | Some o' => parse_options o' cl'
      | None => None
      end
  end.

(** [main] from its first line: [argc], the options that [getopt_long]
    finds in [argv], and the video behind the input file named last. *)
Definition shotsegments {Color : Type} (cvtColor : Color -> Mat)
  (show_double : Double.t -> string) (argc : Z) (cl : list cli_option)
  (video : string -> option (Double.t * list Color)) : outcome run :=
  if argc <? 2 then Ret (mkRun 0 usage [] [])
  else
    match parse_options initial_options cl with
    | None => Ret (mkRun 0 usage [] [])
    | Some o => main cvtColor show_double o (video (inputFile o))
    end.

End CommandLine.

(** ** What the scan writes besides the markers *)

(** The two images saved at the cut [c]. *)
Definition cut_images (c : Z) : list string :=
  [save_name (c - 1) "out"; save_name c "in"].

(** The names of the images of a stream of [n] frames with the cuts [cuts]. *)
Definition image_names (cuts : list Z) (n : Z) : list string :=
  (save_name 0 "in" :: flat_map cut_images cuts ++ [save_name (n - 1) "out"])%list.

(** The condition of the [--verbose] line at frame [i]. *)
Definition traced (level : Z) (i : Z) : bool :=
  (1 <? level) || ((level =? 1) && (Int.rem i 1000 =? 0)).

Definition trace_line (gs : list Mat) (i : nat) : string :=
  "Frame=" ++ Int.to_string (Z.of_nat i) ++
  " Score=" ++ Int.to_string (score_at gs i) ++
  " Diff=" ++
  Int.to_string (Z.abs (score_at gs i - score_at gs (Nat.pred i))) ++ nl.

Definition trace_lines (level : Z) (gs : list Mat) : list string :=
  map (trace_line gs)
    (filter (fun i => traced level (Z.of_nat i))
       (seq 1 (Nat.pred (List.length gs)))).

(** A frame rate that is a normal double with [1 <= fps < 2^53]: a
    mantissa of 53 bits and an exponent from -52 to 0. *)
Definition normal_rate (fps : Double.t) : Prop :=
  match fps with
  | S754_finite false m e => 2 ^ 52 <= Zpos m < 2 ^ 53 /\ -52 <= e <= 0
  | _ => False
  end.

Definition is_digit (ch : ascii) : bool :=
  (Ascii.leb "0" ch) && (Ascii.leb ch "9").

(** A field of exactly two decimal digits. *)
Definition two_digits (s : string) : bool :=
  match s with
  | String a (String b EmptyString) => is_digit a && is_digit b
  | _ => false
  end.

(** The image of key [k]: frame [k / 2], written as "in" for an even key and
    as "out" for an odd one. *)
Definition image_key_name (k : Z) : string :=
  save_name (k / 2) (if Z.even k then "in" else "out").

(** The keys of the two images saved at the cut [c]. *)
Definition cut_keys (c : Z) : list Z := [2 * c - 1; 2 * c].

(** The sum of the lengths of the marker pairs. *)
Definition total_length (pairs : list (Z * Z)) : Z :=
  fold_right (fun p acc => (snd p - fst p) + acc) 0 pairs.

(** * Properties *)

(** ** Outcomes and checked arithmetic *)

Lemma checked_in_range (z : Z) :
  Int.min <= z <= Int.max -> Int.checked z = Ret z.
Proof.
  intros H. unfold Int.checked, Int.in_range.
  replace (Int.min <=? z) with true by (symmetry; apply Z.leb_le; lia).
  replace (z <=? Int.max) with true by (symmetry; apply Z.leb_le; lia).
  reflexivity.
Qed.

Lemma checked_ret (z r : Z) :
  Int.checked z = Ret r -> r = z /\ Int.min <= z <= Int.max.
Proof.
  unfold Int.checked, Int.in_range.
  destruct (Int.min <=? z) eqn:E1; destruct (z <=? Int.max) eqn:E2;
    simpl; intros H; inversion H; subst.
  apply Z.leb_le in E1, E2. lia.
Qed.

(** ** File names: [segmentfile] *)

Lemma last_index_absent (c : ascii) (s : string) :
  Str.contains c s = false -> Str.last_index c s = None.
Proof.
  induction s as [|a s IH]; simpl; [reflexivity|].
  intros H. apply orb_false_iff in H as [Ha Hs].
  rewrite (IH Hs), Ha. reflexivity.
Qed.

Lemma last_index_app (c : ascii) (stem ext : string) :
  Str.contains c ext = false ->
  Str.last_index c (stem ++ String c ext) = Some (String.length stem).
Proof.
  intros Hext. induction stem as [|a stem IH]; simpl.
  - rewrite (last_index_absent c ext Hext), Ascii.eqb_refl. reflexivity.
  - rewrite IH. reflexivity.
Qed.

(** A string that contains [c] splits at its last [c]. *)
Lemma split_at_last (c : ascii) (s : string) :
  Str.contains c s = true ->
  exists stem ext, s = stem ++ String c ext /\ Str.contains c ext = false.
Proof.
  induction s as [|a s IH]; simpl; [discriminate|].
  destruct (Str.contains c s) eqn:Hs.
  - intros _. destruct (IH eq_refl) as (stem & ext & -> & Hext).
    exists (String a stem), ext. split; [reflexivity | assumption].
  - rewrite orb_false_r. intros Ha. apply Ascii.eqb_eq in Ha. subst a.
    exists EmptyString, s. split; [reflexivity | assumption].
Qed.

Lemma substring_prefix (stem rest : string) :
  String.substring 0 (String.length stem) (stem ++ rest) = stem.
Proof.
  induction stem as [|a stem IH]; simpl.
  - destruct rest; reflexivity.
  - rewrite IH. reflexivity.
Qed.

Lemma substring_whole (s : string) :
  String.substring 0 (String.length s) s = s.
Proof. induction s as [|a s IH]; simpl; [reflexivity | rewrite IH; reflexivity]. Qed.

Lemma substring_suffix (stem rest : string) :
  String.substring (String.length stem) (String.length rest) (stem ++ rest) = rest.
Proof.
  induction stem as [|a stem IH]; simpl; [apply substring_whole | exact IH].
Qed.

Lemma length_append (s1 s2 : string) :
  String.length (s1 ++ s2) = (String.length s1 + String.length s2)%nat.
Proof. induction s1 as [|a s1 IH]; simpl; [reflexivity | rewrite IH; reflexivity]. Qed.

Lemma segmentfile_split (stem ext : string) (segment : Z) :
  Str.contains "." ext = false ->
  (Str.size (stem ++ String "." ext) < Str.npos)%N ->
  segmentfile (stem ++ String "." ext) segment =
  Ret (stem ++ "-" ++ Int.to_string segment ++ String "." ext).
Proof.
  intros Hext Hsize.
  unfold segmentfile, Str.rfind. rewrite (last_index_app _ stem ext Hext).
  unfold Str.substr, Str.size in *. rewrite length_append in *.
  set (k := String.length stem) in *.
  set (j := String.length (String "." ext)) in *.
  replace (N.of_nat (k + j) <? 0)%N with false by (symmetry; apply N.ltb_ge; lia).
  replace (N.of_nat (k + j) <? N.of_nat k)%N with false
    by (symmetry; apply N.ltb_ge; lia).
  cbn [bind].
  rewrite N.sub_0_r, N.min_l by lia.
  rewrite N.min_r by lia.
  replace (N.to_nat (N.of_nat (k + j) - N.of_nat k)) with j by lia.
  rewrite !Nat2N.id. change (N.to_nat 0) with O.
  unfold k, j. rewrite substring_prefix, substring_suffix. reflexivity.
Qed.

(** C9: for an input file name that contains a ['.'], [segmentfile] returns
    the name with ["-N"] inserted immediately before its last ['.'], that is
    before the final extension. *)
Theorem segmentfile_inserts_before_extension (basis : string) (segment : Z) :
  Str.contains "." basis = true ->
  (Str.size basis < Str.npos)%N ->
  exists stem ext,
    basis = stem ++ String "." ext /\
    Str.contains "." ext = false /\
    segmentfile basis segment =
      Ret (stem ++ "-" ++ Int.to_string segment ++ String "." ext).
Proof.
  intros Hdot Hsize.
  destruct (split_at_last _ _ Hdot) as (stem & ext & -> & Hext).
  exists stem, ext. repeat split; try assumption.
  apply segmentfile_split; assumption.
Qed.

Lemma segmentfile_inserts_before_extension_witness :
  exists stem ext,
    "clip.mp4" = stem ++ String "." ext /\
    Str.contains "." ext = false /\
    segmentfile "clip.mp4" 3 = Ret (stem ++ "-" ++ Int.to_string 3 ++ String "." ext).
Proof.
  apply (segmentfile_inserts_before_extension "clip.mp4" 3); reflexivity.
Defined.

(** C10: for an input file name without any ['.'], [rfind] returns [npos],
    [basis.substr(pos)] throws [std::out_of_range], and [segmentfile] returns
    no string. *)
Theorem segmentfile_without_dot_throws (basis : string) (segment : Z) :
  Str.contains "." basis = false ->
  (Str.size basis < Str.npos)%N ->
  Str.rfind basis "." = Str.npos /\
  Str.substr basis (Str.rfind basis ".") Str.npos = Fail OutOfRange /\
  segmentfile basis segment = Fail OutOfRange.
Proof.
  intros Hdot Hsize.
  assert (Hpos : Str.rfind basis "." = Str.npos).
  { unfold Str.rfind. rewrite (last_index_absent _ _ Hdot). reflexivity. }
  assert (Hthrow : Str.substr basis Str.npos Str.npos = Fail OutOfRange).
  { unfold Str.substr.
    replace (Str.size basis <? Str.npos)%N with true
      by (symmetry; apply N.ltb_lt; assumption).
    reflexivity. }
  split; [assumption|]. rewrite Hpos. split; [assumption|].
  unfold segmentfile. rewrite Hpos, Hthrow.
  unfold Str.substr at 1.
  replace (Str.size basis <? 0)%N with false by (symmetry; apply N.ltb_ge; lia).
  reflexivity.
Qed.

Lemma segmentfile_without_dot_throws_witness :
  Str.rfind "clip" "." = Str.npos /\
  Str.substr "clip" (Str.rfind "clip" ".") Str.npos = Fail OutOfRange /\
  segmentfile "clip" 3 = Fail OutOfRange.
Proof.
  apply (segmentfile_without_dot_throws "clip" 3); reflexivity.
Defined.

Example segmentfile_clip : segmentfile "clip.mp4" 3 = Ret "clip-3.mp4".
Proof. reflexivity. Qed.

(** ** Doubles: the division of two integers, truncated

    [SFdiv] on two integers below [2^53] works on mantissas of 53 bits; the
    quotient has 53 or 54 bits and is rounded to 53.  The lemmas below follow
    that computation and show that the rounding never reaches the next
    integer, so that the truncated double quotient is the integer quotient. *)

Lemma digits2_pos_size (p : positive) : digits2_pos p = Pos.size p.
Proof. induction p; simpl; congruence. Qed.

Lemma digits2_pos_log2 (p : positive) :
  Zpos (digits2_pos p) = Z.log2 (Zpos p) + 1.
Proof.
  rewrite digits2_pos_size.
  destruct p; simpl; try reflexivity; rewrite Pos2Z.inj_succ; lia.
Qed.

Lemma pos_iter_xO (p k : positive) :
  Zpos (Pos.iter xO p k) = Zpos p * 2 ^ Zpos k.
Proof.
  revert p. induction k using Pos.peano_ind; intros p.
  - simpl. lia.
  - rewrite Pos.iter_succ, Pos2Z.inj_succ, Z.pow_succ_r by lia.
    change (Zpos (Pos.iter xO p k)~0) with (2 * Zpos (Pos.iter xO p k)).
    rewrite IHk. ring.
Qed.

Lemma zdigits2_log2 (m : Z) : 0 < m -> Zdigits2 m = Z.log2 m + 1.
Proof.
  destruct m as [|p|p]; try lia. intros _. simpl Zdigits2.
  apply digits2_pos_log2.
Qed.

Lemma fexp_normal (x : Z) : -1021 <= x -> fexp 53 1024 x = x - 53.
Proof. intros H. unfold fexp, emin. lia. Qed.

Lemma round_nearest_even_bounds (m : Z) (l : location) :
  m <= round_nearest_even m l <= m + 1.
Proof.
  destruct l as [|[]]; simpl; try lia.
  destruct (Z.even m); lia.
Qed.

Lemma shr_m_of_loc (m : Z) (l : location) : shr_m (shr_record_of_loc m l) = m.
Proof. destruct l as [|[]]; reflexivity. Qed.

Lemma shr_1_m (mrs : shr_record) : 0 <= shr_m mrs -> shr_m (shr_1 mrs) = shr_m mrs / 2.
Proof.
  destruct mrs as [m r s]. simpl. intros H.
  destruct m as [|[p|p|]|p]; try lia; cbn [shr_m]; try reflexivity.
  - apply Z.div_unique with (r := 1); lia.
  - apply Z.div_unique with (r := 0); lia.
Qed.

(** First phase of [binary_round_aux] on a mantissa of 53 or 54 bits. *)
Lemma shr_fexp_53_54 (m e : Z) (l : location) :
  2 ^ 52 <= m < 2 ^ 54 -> -1074 <= e ->
  exists mrs k, shr_fexp 53 1024 m e l = (mrs, e + k) /\
                0 <= k <= 1 /\ shr_m mrs = m / 2 ^ k /\
                2 ^ 52 <= m / 2 ^ k < 2 ^ 53.
Proof.
  intros Hm He. unfold shr_fexp.
  assert (Hpos : 0 < m) by lia.
  rewrite (zdigits2_log2 m Hpos).
  assert (Hlog : Z.log2 m = 52 \/ Z.log2 m = 53).
  { assert (52 <= Z.log2 m) by (apply Z.log2_le_pow2; lia).
    assert (Z.log2 m < 54) by (apply Z.log2_lt_pow2; lia). lia. }
  rewrite fexp_normal by lia.
  destruct Hlog as [Hlog|Hlog]; rewrite Hlog.
  - replace (52 + 1 + e - 53 - e) with 0 by lia. simpl shr.
    assert (m < 2 ^ 53) by (apply Z.log2_lt_pow2; lia).
    exists (shr_record_of_loc m l), 0. rewrite Z.add_0_r, shr_m_of_loc.
    rewrite Z.pow_0_r, Z.div_1_r. repeat split; lia.
  - replace (53 + 1 + e - 53 - e) with 1 by lia. simpl shr.
    assert (2 ^ 53 <= m) by (apply Z.log2_le_pow2; lia).
    exists (shr_1 (shr_record_of_loc m l)), 1.
    change (2 ^ 1) with 2.
    repeat split; try lia.
    + rewrite shr_1_m; rewrite shr_m_of_loc; [reflexivity | lia].
    + apply Z.div_le_lower_bound; lia.
    + apply Z.div_lt_upper_bound; lia.
Qed.

(** Second phase: the rounded mantissa has 53 bits, or is [2^53]. *)
Lemma round_aux_finish (sx : bool) (mr e : Z) :
  2 ^ 52 <= mr <= 2 ^ 53 -> -1074 <= e <= 970 ->
  exists mf ef,
    (let '(mrs, e') := shr_fexp 53 1024 mr e loc_Exact in
     match shr_m mrs with
     | Z0 => S754_zero sx
     | Zpos m => if e' <=? 1024 - 53 then S754_finite sx m e' else S754_infinity sx
     | Zneg _ => S754_nan
     end) = S754_finite sx mf ef /\
    Z.shiftl (Zpos mf) ef = Z.shiftl mr e.
Proof.
  intros Hm He.
  destruct (Z.eq_dec mr (2 ^ 53)) as [Heq|Hne].
  - subst mr. exists (2 ^ 52)%positive, (e + 1).
    unfold shr_fexp. rewrite fexp_normal by (simpl Zdigits2; lia).
    replace (Zdigits2 (2 ^ 53) + e - 53 - e) with 1 by (simpl Zdigits2; lia).
    simpl shr. cbn [shr_m shr_1 shr_record_of_loc].
    change (2 ^ 53) with (Zpos (2 ^ 52)~0). cbn iota.
    replace (e + 1 <=? 1024 - 53) with true by (symmetry; apply Z.leb_le; lia).
    split; [reflexivity|].
    replace (e + 1) with (1 + e) by lia.
    rewrite <- Z.shiftl_shiftl by lia. reflexivity.
  - assert (Hlog : Z.log2 mr = 52).
    { apply Z.log2_unique; lia. }
    unfold shr_fexp in *. rewrite zdigits2_log2, Hlog in * by lia.
    rewrite fexp_normal in * by lia.
    replace (52 + 1 + e - 53 - e) with 0 in * by lia. simpl shr in *.
    destruct mr as [|p|p]; try lia.
    exists p, e. cbn [shr_m shr_record_of_loc].
    replace (e <=? 1024 - 53) with true by (symmetry; apply Z.leb_le; lia).
    split; reflexivity.
Qed.

Lemma binary_round_aux_53_54 (sx : bool) (m e : Z) (l : location) :
  2 ^ 52 <= m < 2 ^ 54 -> -1074 <= e <= 969 ->
  exists mf ef mr k,
    binary_round_aux 53 1024 sx m e l = S754_finite sx mf ef /\
    0 <= k <= 1 /\ m / 2 ^ k <= mr <= m / 2 ^ k + 1 /\
    Z.shiftl (Zpos mf) ef = Z.shiftl mr (e + k).
Proof.
  intros Hm He.
  destruct (shr_fexp_53_54 m e l) as (mrs & k & Heq & Hk & Hmrs & Hq); try lia.
  unfold binary_round_aux. rewrite Heq.
  set (mr := round_nearest_even (shr_m mrs) (loc_of_shr_record mrs)).
  assert (Hmr : shr_m mrs <= mr <= shr_m mrs + 1) by apply round_nearest_even_bounds.
  rewrite Hmrs in Hmr.
  destruct (round_aux_finish sx mr (e + k)) as (mf & ef & Hfin & Hsh); try lia.
  exists mf, ef, mr, k. repeat split; try lia; assumption.
Qed.

Lemma binary_round_aux_exact (sx : bool) (m : positive) (e : Z) :
  2 ^ 52 <= Zpos m < 2 ^ 53 -> -1074 <= e <= 971 ->
  binary_round_aux 53 1024 sx (Zpos m) e loc_Exact = S754_finite sx m e.
Proof.
  intros Hm He.
  assert (Hlog : Z.log2 (Zpos m) = 52) by (apply Z.log2_unique; lia).
  assert (Hshr : shr_fexp 53 1024 (Zpos m) e loc_Exact =
                 (Build_shr_record (Zpos m) false false, e)).
  { unfold shr_fexp. rewrite zdigits2_log2, Hlog by lia.
    rewrite fexp_normal by lia.
    replace (52 + 1 + e - 53 - e) with 0 by lia. reflexivity. }
  unfold binary_round_aux. rewrite Hshr.
  cbn [shr_m loc_of_shr_record round_nearest_even]. rewrite Hshr.
  cbn [shr_m].
  replace (e <=? 1024 - 53) with true by (symmetry; apply Z.leb_le; lia).
  reflexivity.
Qed.

(** The double of a positive integer below [2^53] is that integer, held in a
    mantissa of 53 bits. *)
Lemma of_Z_normal (z : Z) :
  0 < z < 2 ^ 53 ->
  exists m e, Double.of_Z z = S754_finite false m e /\
              Zpos m = z * 2 ^ (- e) /\ 2 ^ 52 <= Zpos m < 2 ^ 53 /\
              -52 <= e <= 0.
Proof.
  intros Hz. destruct z as [|p|p]; try lia.
  assert (Hd : 0 <= Z.log2 (Zpos p) < 53).
  { split; [apply Z.log2_nonneg | apply Z.log2_lt_pow2; lia]. }
  pose proof (Z.log2_spec (Zpos p) ltac:(lia)) as Hspec.
  unfold Double.of_Z, Double.prec, Double.emax, binary_normalize, binary_round, shl_align.
  rewrite digits2_pos_log2, fexp_normal by lia.
  remember (Z.log2 (Zpos p)) as d eqn:Ed.
  destruct (Z.eq_dec d 52) as [->|Hne].
  - simpl Z.sub. exists p, 0. rewrite binary_round_aux_exact by (simpl in *; lia).
    simpl in *. repeat split; lia.
  - assert (Hk : exists k, d + 1 + 0 - 53 - 0 = Zneg k /\ Zpos k = 52 - d).
    { destruct (d + 1 + 0 - 53 - 0) as [|k|k] eqn:E; try lia. exists k. split; [reflexivity|lia]. }
    destruct Hk as (k & -> & Hk).
    assert (Hm : Zpos (Pos.iter xO p k) = Zpos p * 2 ^ (52 - d)).
    { rewrite pos_iter_xO, Hk. reflexivity. }
    assert (Hb : 2 ^ 52 <= Zpos p * 2 ^ (52 - d) < 2 ^ 53).
    { replace (2 ^ 52) with (2 ^ d * 2 ^ (52 - d))
        by (rewrite <- Z.pow_add_r by lia; f_equal; lia).
      replace (2 ^ 53) with (2 ^ Z.succ d * 2 ^ (52 - d))
        by (rewrite <- Z.pow_add_r by lia; f_equal; lia).
      assert (0 < 2 ^ (52 - d)) by (apply Z.pow_pos_nonneg; lia).
      split; [apply Z.mul_le_mono_nonneg_r | apply Z.mul_lt_mono_pos_r]; lia. }
    exists (Pos.iter xO p k), (d + 1 + 0 - 53).
    rewrite binary_round_aux_exact by lia.
    replace (- (d + 1 + 0 - 53)) with (52 - d) by lia.
    repeat split; try lia.
Qed.

Lemma div_eucl_div_mod (a b : Z) : Z.div_eucl a b = (a / b, a mod b).
Proof. unfold Z.div, Z.modulo. destruct (Z.div_eucl a b); reflexivity. Qed.

Lemma SFdiv_core_normal (m1 m2 : positive) (e1 e2 : Z) :
  2 ^ 52 <= Zpos m1 < 2 ^ 53 -> 2 ^ 52 <= Zpos m2 < 2 ^ 53 ->
  -52 <= e1 <= 0 -> -52 <= e2 <= 0 ->
  SFdiv_core_binary 53 1024 (Zpos m1) e1 (Zpos m2) e2 =
  (Zpos m1 * 2 ^ 53 / Zpos m2, e1 - e2 - 53,
   new_location (Zpos m2) ((Zpos m1 * 2 ^ 53) mod Zpos m2)).
Proof.
  intros H1 H2 He1 He2.
  assert (Hl1 : Z.log2 (Zpos m1) = 52) by (apply Z.log2_unique; lia).
  assert (Hl2 : Z.log2 (Zpos m2) = 52) by (apply Z.log2_unique; lia).
  unfold SFdiv_core_binary.
  rewrite !zdigits2_log2, Hl1, Hl2 by lia.
  rewrite fexp_normal by lia.
  replace (Z.min (52 + 1 + e1 - (52 + 1 + e2) - 53) (e1 - e2)) with (e1 - e2 - 53) by lia.
  replace (e1 - e2 - (e1 - e2 - 53)) with 53 by lia.
  cbv zeta. rewrite Z.shiftl_mul_pow2 by lia.
  rewrite div_eucl_div_mod. reflexivity.
Qed.

(** Pure arithmetic behind the exactness of the score: a mantissa within one
    unit of [q / 2^k], read at the scale [P / 2^k], truncates to [s / n]. *)
Lemma quotient_survives_rounding (s n P q mr k Pk : Z) :
  0 <= s < 2 ^ 51 -> 0 < n ->
  0 < Pk -> P = Pk * 2 ^ k -> 0 <= k <= 1 ->
  q = s * P / n -> 2 ^ 52 <= q ->
  q / 2 ^ k <= mr <= q / 2 ^ k + 1 ->
  mr / Pk = s / n.
Proof.
  intros Hs Hn HPk HP Hk Hq Hq52 Hmr.
  assert (H2k : 0 < 2 ^ k) by (apply Z.pow_pos_nonneg; lia).
  assert (H2k' : 2 ^ k <= 2).
  { assert (k = 0 \/ k = 1) as [->| ->] by lia; simpl; lia. }
  assert (HPpos : 0 < P) by (subst P; apply Z.mul_pos_pos; lia).
  pose proof (Z.div_mod s n ltac:(lia)) as Hdm.
  pose proof (Z.mod_pos_bound s n ltac:(lia)) as Hmod.
  set (K := s / n) in *. set (t := s mod n) in *.
  assert (HK : 0 <= K) by (apply Z.div_pos; lia).
  pose proof (Z.div_mod (s * P) n ltac:(lia)) as Hdm2.
  pose proof (Z.mod_pos_bound (s * P) n ltac:(lia)) as Hmod2.
  rewrite <- Hq in Hdm2. set (r := (s * P) mod n) in *.
  (* K * P <= q *)
  assert (Hlow : K * P <= q) by nia.
  (* P is larger than n *)
  assert (HPn : 2 * n < P).
  { assert (n * 2 ^ 52 <= s * P) by nia.
    change (2 ^ 52) with (2 * 2 ^ 51) in *. nia. }
  (* q + 2 <= (K + 1) * P *)
  assert (Hup : q + 2 <= (K + 1) * P) by nia.
  symmetry. apply Z.div_unique_pos with (r := mr - K * Pk); [|ring].
  assert (Hqk : K * Pk <= q / 2 ^ k).
  { apply Z.div_le_lower_bound; [lia|]. subst P. nia. }
  assert (Hqk' : q / 2 ^ k < (K + 1) * Pk - 1).
  { apply Z.div_lt_upper_bound; [lia|]. subst P. nia. }
  lia.
Qed.

(** The double division of [s] by [n], converted to [int], is the integer
    quotient: rounding to 53 bits never reaches the next integer. *)
Lemma double_div_exact (s n : Z) :
  0 <= s < 2 ^ 51 -> 0 < n < 2 ^ 53 -> s / n <= Int.max ->
  Double.to_int (Double.div (Double.of_Z s) (Double.of_Z n)) = Ret (s / n).
Proof.
  intros Hs Hn Hsn.
  change (2 ^ 51) with 2251799813685248 in Hs.
  change (2 ^ 53) with 9007199254740992 in Hn.
  destruct (of_Z_normal n) as (m2 & e2 & En & Hm2 & Hb2 & He2); [lia|].
  destruct (Z.eq_dec s 0) as [->|Hs0].
  - rewrite En. reflexivity.
  - destruct (of_Z_normal s) as (m1 & e1 & Es & Hm1 & Hb1 & He1); [lia|].
    rewrite Es, En. unfold Double.div, Double.prec, Double.emax, SFdiv.
    rewrite SFdiv_core_normal by lia.
    set (q := Zpos m1 * 2 ^ 53 / Zpos m2).
    assert (Hq : 2 ^ 52 <= q < 2 ^ 54).
    { unfold q. split.
      - apply Z.div_le_lower_bound; nia.
      - apply Z.div_lt_upper_bound; nia. }
    destruct (binary_round_aux_53_54 (xorb false false) q (e1 - e2 - 53)
                (new_location (Zpos m2) ((Zpos m1 * 2 ^ 53) mod Zpos m2)))
      as (mf & ef & mr & k & Eround & Hk & Hmr & Hshift); try lia.
    rewrite Eround. cbn [xorb Double.to_int].
    rewrite Hshift, Z.shiftl_div_pow2 by lia.
    replace (- (e1 - e2 - 53 + k)) with (- e1 + 53 + e2 - k) by lia.
    set (Pk := 2 ^ (- e1 + 53 + e2 - k)).
    assert (HPk : 0 < Pk) by (apply Z.pow_pos_nonneg; lia).
    assert (Hquot : mr / Pk = s / n).
    { apply (quotient_survives_rounding s n (Pk * 2 ^ k) q mr k Pk); try lia.
      unfold q. rewrite Hm1, Hm2.
      unfold Pk. rewrite <- Z.pow_add_r by lia.
      replace (- e1 + 53 + e2 - k + k) with ((- e1 + 53 + e2) + 0) by lia.
      replace (s * 2 ^ (- e1) * 2 ^ 53) with (s * 2 ^ (- e1 + 53 + e2 + 0) * 2 ^ (- e2)).
      2:{ rewrite <- !Z.mul_assoc, <- !Z.pow_add_r by lia.
          replace (- e1 + 53 + e2 + 0 + - e2) with (- e1 + 53) by lia. reflexivity. }
      rewrite Z.div_mul_cancel_r; [reflexivity | lia |].
      apply Z.pow_nonzero; lia. }
    rewrite Hquot. apply checked_in_range.
    assert (0 <= s / n) by (apply Z.div_pos; lia).
    unfold Int.min, Int.max in *. lia.
Qed.

Lemma of_Z_positive (n : Z) : 0 < n < 2 ^ 53 -> Double.positive (Double.of_Z n).
Proof.
  intros Hn. destruct (of_Z_normal n Hn) as (m & e & -> & _). reflexivity.
Qed.

(** ** Timecodes: [timespec] *)

(** Rounding keeps the sign it is given. *)
Lemma binary_round_aux_sign (sx : bool) (m e : Z) (l : location) :
  match binary_round_aux Double.prec Double.emax sx m e l with
  | S754_zero s | S754_infinity s | S754_finite s _ _ => s = sx
  | S754_nan => True
  end.
Proof.
  unfold binary_round_aux.
  destruct (shr_fexp Double.prec Double.emax m e l) as [mrs' e'].
  destruct (shr_fexp _ _ _ e' loc_Exact) as [mrs'' e''].
  destruct (shr_m mrs''); [reflexivity | | exact I].
  destruct (e'' <=? Double.emax - Double.prec); reflexivity.
Qed.

Lemma of_Z_sign (z : Z) :
  0 <= z ->
  match Double.of_Z z with
  | S754_zero s | S754_infinity s | S754_finite s _ _ => s = false
  | S754_nan => True
  end.
Proof.
  intros Hz. destruct z as [|p|p]; try lia; [reflexivity|].
  unfold Double.of_Z, binary_normalize, binary_round.
  destruct (shl_align p 0 _) as [mz ez].
  apply binary_round_aux_sign.
Qed.

(** A non-negative integer divided by a positive double is never a negative
    finite double. *)
Lemma div_not_negative (z : Z) (y : Double.t) :
  0 <= z -> Double.positive y ->
  forall m e, Double.div (Double.of_Z z) y <> S754_finite true m e.
Proof.
  intros Hz Hy m e. pose proof (of_Z_sign z Hz) as Hx.
  assert (Hpos : (exists my ey, y = S754_finite false my ey) \/
                 y = S754_infinity false).
  { unfold Double.positive, SFltb, SFcompare in Hy.
    destruct y as [sy|sy| |sy my ey]; try discriminate; destruct sy;
      try discriminate; [right | left; exists my, ey]; reflexivity. }
  unfold Double.div, SFdiv.
  destruct (Double.of_Z z) as [sx|sx| |sx mx ex];
    destruct Hpos as [(my & ey & ->)| ->]; try discriminate.
  subst sx.
  destruct (SFdiv_core_binary _ _ _ _ _ _) as [[mz ez] lz].
  pose proof (binary_round_aux_sign (xorb false false) mz ez lz) as Hs.
  intros Heq. rewrite Heq in Hs. discriminate.
Qed.

Lemma to_int_range (x : Double.t) (t : Z) :
  Double.to_int x = Ret t -> Int.min <= t <= Int.max.
Proof.
  destruct x as [s|s| |s m e]; simpl; try discriminate.
  - intros H. inversion H. unfold Int.min, Int.max. lia.
  - intros H. apply checked_ret in H. lia.
Qed.

Lemma to_int_nonneg (x : Double.t) (t : Z) :
  (forall m e, x <> S754_finite true m e) ->
  Double.to_int x = Ret t -> 0 <= t.
Proof.
  intros Hx. destruct x as [s|s| |s m e]; simpl; try discriminate.
  - intros H. inversion H. lia.
  - destruct s; [exfalso; apply (Hx m e); reflexivity|].
    intros H. apply checked_ret in H as [-> _].
    apply Z.shiftl_nonneg. lia.
Qed.

(** The whole seconds of a non-negative frame count at a positive frame rate
    are a non-negative [int]. *)
Lemma whole_seconds_range (frame : Z) (fps : Double.t) (t : Z) :
  0 <= frame -> Double.positive fps ->
  whole_seconds frame fps = Ret t -> 0 <= t <= Int.max.
Proof.
  intros Hf Hfps H. unfold whole_seconds in H. split.
  - eapply to_int_nonneg; [|exact H]. apply div_not_negative; assumption.
  - apply to_int_range in H. lia.
Qed.

Lemma rem_nonneg (t d : Z) : 0 <= t -> 0 < d -> Int.rem t d = t mod d.
Proof. intros. unfold Int.rem. apply Z.rem_mod_nonneg; lia. Qed.

Lemma div_nonneg (t d : Z) : 0 <= t -> 0 < d -> Int.div t d = t / d.
Proof. intros. unfold Int.div. apply Z.quot_div_nonneg; lia. Qed.

Lemma seconds_field_app (stem ext : string) :
  Str.contains ":" ext = false ->
  seconds_field (stem ++ String ":" ext) = ext.
Proof.
  intros Hext. unfold seconds_field. rewrite (last_index_app _ stem ext Hext).
  rewrite length_append. cbn [String.length].
  replace (String.length stem + S (String.length ext) - S (String.length stem))%nat
    with (String.length ext) by lia.
  replace (stem ++ String ":" ext) with ((stem ++ ":") ++ ext).
  - replace (S (String.length stem)) with (String.length (stem ++ ":")).
    + apply substring_suffix.
    + rewrite length_append. simpl. lia.
  - induction stem as [|a stem IH]; simpl; [reflexivity | rewrite IH; reflexivity].
Qed.

Lemma append_assoc (s1 s2 s3 : string) : (s1 ++ s2) ++ s3 = s1 ++ (s2 ++ s3).
Proof. induction s1 as [|a s1 IH]; simpl; [reflexivity | rewrite IH; reflexivity]. Qed.

(** A whole number of minutes is written with ["00"] seconds. *)
Lemma hms_minutes (k : Z) :
  0 <= k ->
  hms (60 * k) =
  (setw 2 "0" (Int.to_string (k / 60)) ++ ":" ++
   setw 2 "0" (Int.to_string (k mod 60))) ++ ":00".
Proof.
  intros Hk. unfold hms.
  assert (Hq : Int.div (60 * k) 60 = k).
  { rewrite div_nonneg by lia. rewrite Z.mul_comm. apply Z.div_mul. lia. }
  assert (Hr : Int.rem (60 * k) 60 = 0).
  { rewrite rem_nonneg by lia. rewrite Z.mul_comm. apply Z.mod_mul. lia. }
  rewrite Hq, Hr, div_nonneg, rem_nonneg by lia.
  rewrite !append_assoc. reflexivity.
Qed.

Lemma adjust_input (t : Z) :
  0 <= t <= Int.max -> adjust_seconds TS_INPUT t = Ret (60 * (t / 60)).
Proof.
  intros Ht. unfold adjust_seconds, TS_INPUT, Int.sub.
  rewrite rem_nonneg by lia.
  pose proof (Z.div_mod t 60 ltac:(lia)) as Hdm.
  pose proof (Z.mod_pos_bound t 60 ltac:(lia)) as Hm.
  replace (t - t mod 60) with (60 * (t / 60)) by lia.
  apply checked_in_range. unfold Int.min, Int.max in *. lia.
Qed.

Lemma adjust_output (t : Z) :
  0 <= t -> adjust_seconds TS_OUTPUT t = Ret (t mod 60).
Proof.
  intros Ht. unfold adjust_seconds, TS_OUTPUT. rewrite rem_nonneg by lia.
  reflexivity.
Qed.

Lemma adjust_duration (t : Z) :
  0 <= t < Int.max -> adjust_seconds TS_DURATION t = Ret (t + 1).
Proof.
  intros Ht. unfold adjust_seconds, TS_DURATION, Int.add.
  apply checked_in_range. unfold Int.min, Int.max in *. lia.
Qed.

(** C6: for a non-negative start frame and a positive frame rate, with [t]
    the whole seconds of [start / fps], the seek timecode ([TS_INPUT]) is [t]
    rounded down to a whole minute, and the seconds field of the formatted
    timecode is ["00"]. *)
Theorem seek_timecode_minute_aligned (start : Z) (fps : Double.t) (t : Z) :
  0 <= start -> Double.positive fps ->
  whole_seconds start fps = Ret t ->
  timespec_seconds start fps TS_INPUT = Ret (60 * (t / 60)) /\
  timespec start fps TS_INPUT = Ret (hms (60 * (t / 60))) /\
  60 * (t / 60) <= t < 60 * (t / 60) + 60 /\
  seconds_field (hms (60 * (t / 60))) = "00".
Proof.
  intros Hs Hfps Ht.
  pose proof (whole_seconds_range _ _ _ Hs Hfps Ht) as Hr.
  assert (Hsec : timespec_seconds start fps TS_INPUT = Ret (60 * (t / 60))).
  { unfold timespec_seconds. rewrite Ht. cbn [bind]. apply adjust_input. lia. }
  split; [assumption|]. split.
  - unfold timespec. rewrite Hsec. reflexivity.
  - split.
    + pose proof (Z.div_mod t 60 ltac:(lia)).
      pose proof (Z.mod_pos_bound t 60 ltac:(lia)). lia.
    + rewrite hms_minutes by (apply Z.div_pos; lia).
      apply (seconds_field_app _ "00"). reflexivity.
Qed.

Lemma seek_timecode_minute_aligned_witness :
  timespec_seconds 4000 (Double.of_Z 30) TS_INPUT = Ret (60 * (133 / 60)) /\
  timespec 4000 (Double.of_Z 30) TS_INPUT = Ret (hms (60 * (133 / 60))) /\
  60 * (133 / 60) <= 133 < 60 * (133 / 60) + 60 /\
  seconds_field (hms (60 * (133 / 60))) = "00".
Proof.
  apply (seek_timecode_minute_aligned 4000 (Double.of_Z 30) 133);
    [lia | reflexivity | reflexivity].
Defined.

(** At an integer frame rate the whole seconds are defined for every frame
    index, and are the integer quotient. *)
Lemma whole_seconds_integer_rate (frame rate : Z) :
  0 <= frame <= Int.max -> 0 < rate < 2 ^ 53 ->
  whole_seconds frame (Double.of_Z rate) = Ret (frame / rate).
Proof.
  intros Hf Hr. unfold whole_seconds. unfold Int.max in *.
  assert (0 <= frame / rate <= frame).
  { split; [apply Z.div_pos; lia|].
    apply Z.div_le_upper_bound; [lia|]. nia. }
  apply double_div_exact; unfold Int.max; lia.
Qed.

(** For a frame rate that is a normal double in [[1, 2^53)] the whole seconds
    of every frame index are defined, and do not exceed the index. *)
Lemma whole_seconds_defined (frame : Z) (m : positive) (e : Z) :
  0 <= frame <= Int.max ->
  2 ^ 52 <= Zpos m < 2 ^ 53 -> -52 <= e <= 0 ->
  exists t, whole_seconds frame (S754_finite false m e) = Ret t /\
            0 <= t <= frame.
Proof.
  intros Hf Hm He. unfold Int.max in Hf. unfold whole_seconds.
  destruct (Z.eq_dec frame 0) as [->|Hf0].
  - exists 0. split; [reflexivity | lia].
  - destruct (of_Z_normal frame) as (m1 & e1 & Ef & Hm1 & Hb1 & He1); [lia|].
    rewrite Ef. unfold Double.div, Double.prec, Double.emax, SFdiv.
    rewrite SFdiv_core_normal by lia.
    set (q := Zpos m1 * 2 ^ 53 / Zpos m).
    assert (Hq : 2 ^ 52 <= q < 2 ^ 54).
    { unfold q. split.
      - apply Z.div_le_lower_bound; nia.
      - apply Z.div_lt_upper_bound; nia. }
    destruct (binary_round_aux_53_54 (xorb false false) q (e1 - e - 53)
                (new_location (Zpos m) ((Zpos m1 * 2 ^ 53) mod Zpos m)))
      as (mf & ef & mr & k & Eround & Hk & Hmr & Hshift); try lia.
    rewrite Eround. cbn [xorb Double.to_int].
    rewrite Hshift, Z.shiftl_div_pow2 by lia.
    replace (- (e1 - e - 53 + k)) with (- e1 + 53 + e - k) by lia.
    assert (Ha : 22 <= - e1).
    { destruct (Z_lt_le_dec (- e1) 22) as [Hlt|]; [|assumption].
      assert (2 ^ (- e1) <= 2 ^ 21) by (apply Z.pow_le_mono_r; lia).
      nia. }
    set (Pk := 2 ^ (- e1 + 53 + e - k)).
    assert (HPk : 2 <= Pk).
    { unfold Pk. change 2 with (2 ^ 1) at 1. apply Z.pow_le_mono_r; lia. }
    assert (H2k : 0 < 2 ^ k) by (apply Z.pow_pos_nonneg; lia).
    assert (HP : Pk * 2 ^ k * 2 ^ (- e) = 2 ^ (- e1) * 2 ^ 53).
    { unfold Pk. rewrite <- !Z.pow_add_r by lia. f_equal. lia. }
    assert (Hrate : 2 ^ (- e) <= Zpos m).
    { assert (2 ^ (- e) <= 2 ^ 52) by (apply Z.pow_le_mono_r; lia). lia. }
    assert (Hqle : q <= frame * (Pk * 2 ^ k)).
    { unfold q. apply Z.div_le_upper_bound; [lia|].
      rewrite Hm1.
      replace (frame * 2 ^ (- e1) * 2 ^ 53) with (frame * (Pk * 2 ^ k) * 2 ^ (- e))
        by (transitivity (frame * (Pk * 2 ^ k * 2 ^ (- e))); [ring | rewrite HP; ring]).
      assert (0 <= frame * (Pk * 2 ^ k)) by nia. nia. }
    assert (Hqk : q / 2 ^ k <= frame * Pk).
    { apply Z.div_le_upper_bound; [lia|]. nia. }
    assert (H0 : 0 <= q / 2 ^ k) by (apply Z.div_pos; lia).
    assert (Hlow : 0 <= mr / Pk) by (apply Z.div_pos; lia).
    assert (Hup : mr / Pk <= frame).
    { apply Z.lt_succ_r. apply Z.div_lt_upper_bound; [lia|]. nia. }
    exists (mr / Pk). split; [|lia].
    apply checked_in_range. unfold Int.min, Int.max. lia.
Qed.

Lemma hms_below_minute (r : Z) :
  0 <= r < 60 -> hms r = "00:00:" ++ setw 2 "0" (Int.to_string r).
Proof.
  intros Hr. unfold hms.
  rewrite (div_nonneg r 60), (rem_nonneg r 60) by lia.
  rewrite (Z.div_small r 60), (Z.mod_small r 60) by lia. reflexivity.
Qed.

(** C7: for a non-negative start frame and a positive frame rate, with [t]
    the whole seconds of [start / fps], the offset timecode ([TS_OUTPUT])
    encodes [t mod 60], the seconds within the minute; added to the minute
    boundary of the seek timecode, [60 * (t / 60)], it gives [t] back. *)
Theorem offset_timecode_remainder (start : Z) (fps : Double.t) (t : Z) :
  0 <= start -> Double.positive fps ->
  whole_seconds start fps = Ret t ->
  timespec_seconds start fps TS_OUTPUT = Ret (t mod 60) /\
  timespec start fps TS_OUTPUT =
    Ret ("00:00:" ++ setw 2 "0" (Int.to_string (t mod 60))) /\
  0 <= t mod 60 < 60 /\
  t mod 60 + 60 * (t / 60) = t /\
  timespec_seconds start fps TS_INPUT = Ret (60 * (t / 60)).
Proof.
  intros Hs Hfps Ht.
  pose proof (whole_seconds_range _ _ _ Hs Hfps Ht) as Hr.
  pose proof (Z.div_mod t 60 ltac:(lia)) as Hdm.
  pose proof (Z.mod_pos_bound t 60 ltac:(lia)) as Hm.
  assert (Hsec : timespec_seconds start fps TS_OUTPUT = Ret (t mod 60)).
  { unfold timespec_seconds. rewrite Ht. cbn [bind]. apply adjust_output. lia. }
  repeat split; try lia; try assumption.
  - unfold timespec. rewrite Hsec. cbn [bind]. rewrite hms_below_minute by lia.
    reflexivity.
  - unfold timespec_seconds. rewrite Ht. cbn [bind]. apply adjust_input. lia.
Qed.

Lemma offset_timecode_remainder_witness :
  timespec_seconds 4000 (Double.of_Z 30) TS_OUTPUT = Ret (133 mod 60) /\
  timespec 4000 (Double.of_Z 30) TS_OUTPUT =
    Ret ("00:00:" ++ setw 2 "0" (Int.to_string (133 mod 60))) /\
  0 <= 133 mod 60 < 60 /\
  133 mod 60 + 60 * (133 / 60) = 133 /\
  timespec_seconds 4000 (Double.of_Z 30) TS_INPUT = Ret (60 * (133 / 60)).
Proof.
  apply (offset_timecode_remainder 4000 (Double.of_Z 30) 133);
    [lia | reflexivity | reflexivity].
Defined.

(** C8: for a non-negative frame count and a positive frame rate, with [t]
    the whole seconds of [len / fps], the duration timecode ([TS_DURATION])
    is that of [t + 1] seconds.  At 30 frames per second the segment from
    frame 150 to frame 330 has seek timecode 00:00:00, offset timecode
    00:00:05 and duration timecode 00:00:07. *)
Theorem duration_timecode_plus_one (len : Z) (fps : Double.t) (t : Z) :
  0 <= len -> Double.positive fps ->
  whole_seconds len fps = Ret t -> t < Int.max ->
  timespec_seconds len fps TS_DURATION = Ret (t + 1) /\
  timespec len fps TS_DURATION = Ret (hms (t + 1)) /\
  timespec 150 (Double.of_Z 30) TS_INPUT = Ret "00:00:00" /\
  timespec 150 (Double.of_Z 30) TS_OUTPUT = Ret "00:00:05" /\
  timespec (330 - 150) (Double.of_Z 30) TS_DURATION = Ret "00:00:07".
Proof.
  intros Hl Hfps Ht Hmax.
  pose proof (whole_seconds_range _ _ _ Hl Hfps Ht) as Hr.
  assert (Hsec : timespec_seconds len fps TS_DURATION = Ret (t + 1)).
  { unfold timespec_seconds. rewrite Ht. cbn [bind]. apply adjust_duration. lia. }
  split; [assumption|]. split.
  - unfold timespec. rewrite Hsec. reflexivity.
  - split; [|split]; vm_compute; reflexivity.
Qed.

Lemma duration_timecode_plus_one_witness :
  timespec_seconds 180 (Double.of_Z 30) TS_DURATION = Ret (6 + 1) /\
  timespec 180 (Double.of_Z 30) TS_DURATION = Ret (hms (6 + 1)) /\
  timespec 150 (Double.of_Z 30) TS_INPUT = Ret "00:00:00" /\
  timespec 150 (Double.of_Z 30) TS_OUTPUT = Ret "00:00:05" /\
  timespec (330 - 150) (Double.of_Z 30) TS_DURATION = Ret "00:00:07".
Proof.
  apply (duration_timecode_plus_one 180 (Double.of_Z 30) 6);
    [lia | reflexivity | reflexivity | reflexivity].
Defined.

(** ** The frame scorer *)

Lemma pixel_bounds (b : Byte.byte) : 0 <= pixel b <= 255.
Proof.
  unfold pixel. pose proof (Byte.to_N_bounded b). lia.
Qed.

Lemma saturate_u8_in_range (z : Z) :
  0 <= z <= 255 -> pixel (saturate_u8 z) = z.
Proof.
  intros Hz. unfold saturate_u8, pixel.
  replace (Z.min (Z.max z 0) 255) with z by lia.
  destruct (Byte.of_N (Z.to_N z)) as [b|] eqn:E.
  - rewrite (Byte.to_of_N _ E). lia.
  - apply Byte.of_N_None_iff in E. lia.
Qed.

Lemma abs_diff_bounds (x y : Byte.byte) : 0 <= Z.abs (pixel x - pixel y) <= 255.
Proof.
  pose proof (pixel_bounds x). pose proof (pixel_bounds y). lia.
Qed.

(** [cv::sum] of [cv::absdiff] is the sum of the absolute differences. *)
Lemma pixel_sum_absdiff (a b diffs : Mat) :
  absdiff a b = Ret diffs -> pixel_sum diffs = sum_abs_diff a b.
Proof.
  unfold absdiff. destruct (same_size a b); [|discriminate].
  intros H. inversion H; subst; clear H.
  unfold pixel_sum, sum_abs_diff. cbn [data].
  generalize (data b). induction (data a) as [|x l IH]; intros [|y l'];
    simpl; try reflexivity.
  rewrite IH, saturate_u8_in_range by apply abs_diff_bounds. reflexivity.
Qed.

Lemma sum_abs_diff_bounds (a b : Mat) :
  0 <= sum_abs_diff a b <= 255 * Z.of_nat (List.length (data a)).
Proof.
  unfold sum_abs_diff. generalize (data b).
  induction (data a) as [|x l IH]; intros [|y l']; simpl fold_right;
    try (simpl List.length; lia).
  specialize (IH l'). pose proof (abs_diff_bounds x y).
  cbn [List.length]. rewrite Nat2Z.inj_succ. lia.
Qed.

Lemma sum_abs_diff_same (a : Mat) : sum_abs_diff a a = 0.
Proof.
  unfold sum_abs_diff. induction (data a) as [|x l IH]; simpl; [reflexivity|].
  rewrite IH, Z.sub_diag. reflexivity.
Qed.

Lemma same_size_has_size (r c : Z) (a b : Mat) :
  has_size r c a -> has_size r c b -> same_size a b = true.
Proof.
  intros (Ha1 & Ha2 & _) (Hb1 & Hb2 & _). unfold same_size.
  rewrite Ha1, Ha2, Hb1, Hb2, !Z.eqb_refl. reflexivity.
Qed.

Lemma mean_abs_diff_bounds (r c : Z) (a b : Mat) :
  frame_dims r c -> has_size r c a -> 0 <= mean_abs_diff a b <= 255.
Proof.
  intros (Hr & Hc & Hrc) (_ & _ & Hlen). unfold mean_abs_diff.
  pose proof (sum_abs_diff_bounds a b) as Hs. rewrite Hlen in *.
  assert (0 < r * c) by lia.
  rewrite Z.quot_div_nonneg by lia. split.
  - apply Z.div_pos; lia.
  - apply Z.div_le_upper_bound; lia.
Qed.

Lemma frame_score_mean (r c : Z) (cur prev : Mat) :
  frame_dims r c -> has_size r c cur -> has_size r c prev ->
  frame_score cur prev (r * c) = Ret (mean_abs_diff cur prev).
Proof.
  intros Hdims Hcur Hprev.
  pose proof (mean_abs_diff_bounds r c cur prev Hdims Hcur) as Hb.
  destruct Hdims as (Hr & Hc & Hrc). unfold Int.max in Hrc.
  unfold frame_score.
  destruct (absdiff cur prev) as [diffs|f] eqn:Ediff.
  2:{ unfold absdiff in Ediff.
      rewrite (same_size_has_size r c cur prev Hcur Hprev) in Ediff.
      discriminate. }
  cbn [bind]. unfold cv_sum. rewrite (pixel_sum_absdiff _ _ _ Ediff).
  pose proof (sum_abs_diff_bounds cur prev) as Hs.
  unfold mean_abs_diff in *.
  destruct Hcur as (_ & _ & Hlen). rewrite Hlen in *.
  assert (0 < r * c) by lia.
  rewrite Z.quot_div_nonneg in * by lia.
  apply double_div_exact; unfold Int.max; lia.
Qed.

(** C4: for two grayscale frames of the same dimensions with at least one
    pixel, the score is the sum of the absolute per-pixel differences divided
    by the pixel count and truncated; it lies between 0 and 255, and the
    score of a frame against itself is 0. *)
Theorem score_is_mean_abs_diff (r c : Z) (current previous : Mat) :
  frame_dims r c -> has_size r c current -> has_size r c previous ->
  frame_score current previous (r * c) =
    Ret (Z.quot (sum_abs_diff current previous) (r * c)) /\
  0 <= Z.quot (sum_abs_diff current previous) (r * c) <= 255 /\
  frame_score previous previous (r * c) = Ret 0.
Proof.
  intros Hdims Hcur Hprev.
  pose proof (frame_score_mean r c current previous Hdims Hcur Hprev) as Hscore.
  pose proof (mean_abs_diff_bounds r c current previous Hdims Hcur) as Hb.
  pose proof (frame_score_mean r c previous previous Hdims Hprev Hprev) as Hsame.
  unfold mean_abs_diff in *.
  destruct Hcur as (_ & _ & Hlen). destruct Hprev as (_ & _ & Hlen').
  rewrite Hlen in *. rewrite Hlen' in *.
  rewrite sum_abs_diff_same in Hsame.
  replace (Z.quot 0 (r * c)) with 0 in Hsame by (symmetry; apply Z.quot_0_l; destruct Hdims; lia).
  repeat split; try assumption; lia.
Qed.

Lemma score_is_mean_abs_diff_witness :
  let a := mkMat 1 2 [Byte.x10; Byte.xff] in
  let b := mkMat 1 2 [Byte.x20; Byte.x00] in
  frame_score a b (1 * 2) = Ret (Z.quot (sum_abs_diff a b) (1 * 2)) /\
  0 <= Z.quot (sum_abs_diff a b) (1 * 2) <= 255 /\
  frame_score b b (1 * 2) = Ret 0.
Proof.
  intros a b.
  apply (score_is_mean_abs_diff 1 2 a b).
  - unfold frame_dims, Int.max. lia.
  - repeat split; reflexivity.
  - repeat split; reflexivity.
Defined.

(** ** The marker scan *)

Lemma skipn_cons_nth {A : Type} (i : nat) (l : list A) (x d : A) (t : list A) :
  skipn i l = x :: t ->
  nth i l d = x /\ skipn (S i) l = t /\ (i < List.length l)%nat.
Proof.
  revert l. induction i as [|i IH]; intros [|y l] H; simpl in *; try discriminate.
  - inversion H. split; [reflexivity | split; [reflexivity | lia]].
  - destruct (IH l H) as (H1 & H2 & H3).
    split; [assumption | split; [assumption | lia]].
Qed.

Lemma Forall_nth_lt {A : Type} (P : A -> Prop) (l : list A) (d : A) (i : nat) :
  Forall P l -> (i < List.length l)%nat -> P (nth i l d).
Proof.
  intros HP Hi. rewrite Forall_forall in HP. apply HP. apply nth_In. exact Hi.
Qed.

Section ScanProofs.

Context {Color : Type}.
Variable cvtColor : Color -> Mat.
Variable o : options.
Variables r c : Z.
Hypothesis Hdims : frame_dims r c.

(** One turn of the frame loop: the new state, with the marker appended
    exactly when both thresholds are exceeded. *)
Lemma step_spec (st : state) (currentColor : Color) :
  has_size r c (previous st) -> has_size r c (cvtColor currentColor) ->
  0 <= lastScore st <= 255 -> 1 <= frame st < Int.max ->
  let score := mean_abs_diff (cvtColor currentColor) (previous st) in
  let cut := (threshold o <? score) &&
             (threshold o <? Z.abs (score - lastScore st)) in
  exists st',
    step cvtColor o (r * c) st currentColor = Ret st' /\
    previous st' = cvtColor currentColor /\
    frame st' = frame st + 1 /\
    lastScore st' = score /\
    markers st' = (markers st ++ (if cut then [frame st] else []))%list.
Proof.
  intros Hprev Hcur Hlast Hframe score cut.
  pose proof (mean_abs_diff_bounds r c _ (previous st) Hdims Hcur) as Hscore.
  fold score in Hscore. unfold Int.max in Hframe.
  unfold step. rewrite (frame_score_mean r c _ _ Hdims Hcur Hprev).
  fold score. cbn [bind]. unfold Int.sub at 1.
  rewrite checked_in_range by (unfold Int.min, Int.max; lia).
  cbn [bind]. unfold Int.abs.
  rewrite checked_in_range by (unfold Int.min, Int.max; lia).
  cbn [bind]. fold cut. unfold Int.add.
  rewrite (checked_in_range (frame st + 1)) by (unfold Int.min, Int.max; lia).
  destruct cut.
  - destruct (saveImages o).
    + unfold Int.sub.
      rewrite checked_in_range by (unfold Int.min, Int.max; lia).
      cbn [bind fst snd]. eexists. split; [reflexivity|].
      cbn [previous frame lastScore markers]. repeat split.
    + cbn [bind fst snd]. eexists. split; [reflexivity|].
      cbn [previous frame lastScore markers]. repeat split.
  - cbn [bind fst snd]. eexists. split; [reflexivity|].
    cbn [previous frame lastScore markers]. rewrite app_nil_r. repeat split.
Qed.

Lemma score_at_bounds (gs : list Mat) (i : nat) :
  Forall (has_size r c) gs -> (i < List.length gs)%nat ->
  0 <= score_at gs i <= 255.
Proof.
  intros Hgs Hi. destruct i as [|j]; simpl; [lia|].
  apply (mean_abs_diff_bounds r c); [exact Hdims|].
  apply Forall_nth_lt; assumption.
Qed.

(** The frame loop, started at frame [i] of the grayscale stream [gs]. *)
Lemma loop_spec (gs : list Mat) (rest : list Color) :
  Forall (has_size r c) gs ->
  Z.of_nat (List.length gs) <= Int.max ->
  forall (i : nat) (st : state),
    (1 <= i)%nat ->
    skipn i gs = map cvtColor rest ->
    previous st = nth (Nat.pred i) gs empty_mat ->
    lastScore st = score_at gs (Nat.pred i) ->
    frame st = Z.of_nat i ->
    exists st',
      loop cvtColor o (r * c) st rest = Ret st' /\
      frame st' = Z.of_nat (i + List.length rest) /\
      markers st' =
        (markers st ++
         map Z.of_nat (filter (cut_at (threshold o) gs)
                         (seq i (List.length rest))))%list.
Proof.
  intros Hgs Hlen. induction rest as [|cur rest IH]; intros i st Hi Hskip Hprev Hlast Hframe.
  - exists st. simpl. rewrite Nat.add_0_r, app_nil_r. repeat split. exact Hframe.
  - simpl map in Hskip.
    destruct (skipn_cons_nth i gs _ empty_mat _ Hskip) as (Hnth & Hskip' & Hlt).
    assert (Hsz_prev : has_size r c (previous st)).
    { rewrite Hprev. apply Forall_nth_lt; [assumption | lia]. }
    assert (Hsz_cur : has_size r c (cvtColor cur)).
    { rewrite <- Hnth. apply Forall_nth_lt; assumption. }
    assert (Hlast_b : 0 <= lastScore st <= 255).
    { rewrite Hlast. apply score_at_bounds; [assumption | lia]. }
    destruct (step_spec st cur Hsz_prev Hsz_cur Hlast_b ltac:(lia))
      as (st1 & Hstep & Hp1 & Hf1 & Hl1 & Hm1).
    assert (Hscore : mean_abs_diff (cvtColor cur) (previous st) = score_at gs i).
    { destruct i as [|j]; [lia|]. simpl score_at. simpl Nat.pred in Hprev.
      rewrite Hnth, Hprev. reflexivity. }
    destruct (IH (S i) st1) as (st' & Hloop & Hf' & Hm'); try assumption.
    + lia.
    + simpl Nat.pred. rewrite Hp1. symmetry. exact Hnth.
    + simpl Nat.pred. rewrite Hl1. exact Hscore.
    + rewrite Hf1, Hframe. lia.
    + exists st'. simpl loop. rewrite Hstep. cbn [bind].
      split; [exact Hloop|]. split.
      * rewrite Hf'. f_equal. simpl. lia.
      * rewrite Hm', Hm1, Hscore, Hlast, Hframe.
        change (cut_at (threshold o) gs i)
          with ((threshold o <? score_at gs i) &&
                (threshold o <? Z.abs (score_at gs i - score_at gs (Nat.pred i)))).
        cbn [List.length seq filter].
        unfold cut_at at 2.
        destruct ((threshold o <? score_at gs i) &&
                  (threshold o <? Z.abs (score_at gs i - score_at gs (Nat.pred i))));
          rewrite <- app_assoc; reflexivity.
Qed.

(** The marker list after the scan of a non-empty stream: the opening
    sentinel, the detected cuts, the closing sentinel. *)
Lemma scan_spec (video : list Color) :
  video <> [] ->
  Forall (has_size r c) (map cvtColor video) ->
  Z.of_nat (List.length video) <= Int.max ->
  exists st,
    scan cvtColor o video = Ret (Some st) /\
    markers st =
      (0 :: detected_cuts (threshold o) (map cvtColor video) ++
       [Z.of_nat (List.length video) - 1])%list.
Proof.
  intros Hne Hgs Hlen. destruct video as [|firstColor rest]; [congruence|].
  set (gs := map cvtColor (firstColor :: rest)) in *.
  assert (Hfirst : has_size r c (cvtColor firstColor)).
  { inversion Hgs; assumption. }
  unfold scan. destruct Hfirst as (Hr & Hc & _). rewrite Hr, Hc.
  unfold Int.mul.
  rewrite checked_in_range
    by (destruct Hdims as (? & ? & ?); unfold Int.min in *; lia).
  cbn [bind].
  match goal with |- context [loop _ _ _ ?s rest] => set (st0 := s) end.
  destruct (loop_spec gs rest Hgs) with (i := 1%nat) (st := st0)
    as (st' & Hloop & Hf' & Hm'); try reflexivity.
  - unfold gs. rewrite length_map. exact Hlen.
  - rewrite Hloop. cbn [bind]. unfold Int.sub.
    cbn [List.length] in Hlen. unfold Int.max in Hlen.
    rewrite checked_in_range by (unfold Int.min, Int.max; lia).
    cbn [bind]. eexists. split; [reflexivity|]. cbn [markers].
    rewrite Hm', Hf'. unfold detected_cuts, gs. rewrite length_map.
    cbn [List.length Nat.pred markers st0]. simpl app.
    replace (Z.of_nat (1 + List.length rest))
      with (Z.of_nat (S (List.length rest))) by (f_equal; lia).
    reflexivity.
Qed.

End ScanProofs.

(** ** Sorted lists *)

Lemma seq_increasing (a n : nat) : StronglySorted lt (seq a n).
Proof.
  revert a. induction n as [|n IH]; intros a; simpl; constructor.
  - apply IH.
  - apply Forall_forall. intros x Hx. apply in_seq in Hx. lia.
Qed.

Lemma filter_sorted {A : Type} (R : A -> A -> Prop) (f : A -> bool) (l : list A) :
  StronglySorted R l -> StronglySorted R (filter f l).
Proof.
  induction 1 as [|a l Hl IH Ha]; simpl; [constructor|].
  destruct (f a); [|exact IH]. constructor; [exact IH|].
  rewrite Forall_forall in *. intros x Hx. apply filter_In in Hx as [Hx _].
  auto.
Qed.

Lemma map_sorted {A B : Type} (R : A -> A -> Prop) (R' : B -> B -> Prop)
  (f : A -> B) (l : list A) :
  (forall x y, R x y -> R' (f x) (f y)) ->
  StronglySorted R l -> StronglySorted R' (map f l).
Proof.
  intros Hf. induction 1 as [|a l Hl IH Ha]; simpl; constructor; [exact IH|].
  rewrite Forall_forall in *. intros y Hy.
  apply in_map_iff in Hy as (x & <- & Hx). auto.
Qed.

Lemma sorted_snoc {A : Type} (R : A -> A -> Prop) (l : list A) (b : A) :
  StronglySorted R l -> Forall (fun x => R x b) l ->
  StronglySorted R (l ++ [b]).
Proof.
  induction 1 as [|a l Hl IH Ha]; intros Hb; simpl.
  - constructor; constructor.
  - inversion Hb; subst. constructor; [apply IH; assumption|].
    apply Forall_app. split; [assumption | constructor; [assumption | constructor]].
Qed.

Lemma sorted_snoc_inv {A : Type} (R : A -> A -> Prop) (l : list A) (b : A) :
  StronglySorted R (l ++ [b]) -> Forall (fun x => R x b) l.
Proof.
  induction l as [|a l IH]; simpl; intros H; [constructor|].
  apply StronglySorted_inv in H as [Hl Ha]. constructor.
  - rewrite Forall_forall in Ha. apply Ha. apply in_or_app. right. left. reflexivity.
  - apply IH. exact Hl.
Qed.

Lemma sorted_weaken {A : Type} (R R' : A -> A -> Prop) (l : list A) :
  (forall x y, R x y -> R' x y) -> StronglySorted R l -> StronglySorted R' l.
Proof.
  intros HR. induction 1 as [|a l Hl IH Ha]; constructor; [exact IH|].
  eapply Forall_impl; [|exact Ha]. intros x. apply HR.
Qed.

Lemma increasing_NoDup (l : list Z) : StronglySorted Z.lt l -> NoDup l.
Proof.
  induction 1 as [|a l Hl IH Ha]; constructor; [|exact IH].
  intros Hin. rewrite Forall_forall in Ha. specialize (Ha a Hin). lia.
Qed.

(** ** The detected cuts *)

Lemma detected_cuts_In (thr : Z) (gs : list Mat) (z : Z) :
  In z (detected_cuts thr gs) <->
  exists i, z = Z.of_nat i /\ (1 <= i < List.length gs)%nat /\
            cut_at thr gs i = true.
Proof.
  unfold detected_cuts. rewrite in_map_iff. split.
  - intros (i & <- & Hi). apply filter_In in Hi as [Hi Hcut].
    apply in_seq in Hi. exists i. repeat split; try assumption; lia.
  - intros (i & -> & Hi & Hcut). exists i. split; [reflexivity|].
    apply filter_In. split; [apply in_seq; lia | assumption].
Qed.

Lemma detected_cuts_increasing (thr : Z) (gs : list Mat) :
  StronglySorted Z.lt (detected_cuts thr gs).
Proof.
  unfold detected_cuts. apply (map_sorted lt); [intros; lia|].
  apply filter_sorted, seq_increasing.
Qed.

Lemma cut_at_true (thr : Z) (gs : list Mat) (i : nat) :
  cut_at thr gs i = true <->
  thr < score_at gs i /\ thr < Z.abs (score_at gs i - score_at gs (Nat.pred i)).
Proof.
  unfold cut_at. rewrite andb_true_iff, !Z.ltb_lt. reflexivity.
Qed.

(** The shape [0 :: cuts ++ [n - 1]] of a marker list, for [n >= 2] frames. *)
Lemma markers_shape_sorted (thr : Z) (gs : list Mat) :
  (2 <= List.length gs)%nat ->
  let n := Z.of_nat (List.length gs) in
  let ms := (0 :: detected_cuts thr gs ++ [n - 1])%list in
  StronglySorted Z.le ms /\
  StronglySorted Z.lt (removelast ms) /\
  (StronglySorted Z.lt ms <-> cut_at thr gs (List.length gs - 1) = false).
Proof.
  intros Hn n ms.
  pose proof (detected_cuts_increasing thr gs) as Hinc.
  assert (Hrange : Forall (fun z => 1 <= z <= n - 1) (detected_cuts thr gs)).
  { apply Forall_forall. intros z Hz.
    apply detected_cuts_In in Hz as (i & -> & Hi & _). unfold n. lia. }
  assert (Hfront : StronglySorted Z.lt (0 :: detected_cuts thr gs)).
  { constructor; [exact Hinc|]. eapply Forall_impl; [|exact Hrange].
    simpl. intros; lia. }
  assert (Hrl : removelast ms = (0 :: detected_cuts thr gs)%list).
  { unfold ms. change (0 :: detected_cuts thr gs ++ [n - 1])%list
      with ((0 :: detected_cuts thr gs) ++ [n - 1])%list.
    apply removelast_last. }
  split; [|split].
  - unfold ms. change (0 :: detected_cuts thr gs ++ [n - 1])%list
      with ((0 :: detected_cuts thr gs) ++ [n - 1])%list.
    apply sorted_snoc.
    + apply (sorted_weaken Z.lt); [intros; lia | exact Hfront].
    + constructor; [unfold n; lia|].
      eapply Forall_impl; [|exact Hrange]. simpl. intros; lia.
  - rewrite Hrl. exact Hfront.
  - unfold ms. change (0 :: detected_cuts thr gs ++ [n - 1])%list
      with ((0 :: detected_cuts thr gs) ++ [n - 1])%list.
    split.
    + intros Hs. apply sorted_snoc_inv in Hs.
      destruct (cut_at thr gs (List.length gs - 1)) eqn:Hcut; [|reflexivity].
      exfalso. apply Forall_inv_tail in Hs. rewrite Forall_forall in Hs.
      assert (Hin : In (n - 1) (detected_cuts thr gs)).
      { apply detected_cuts_In. exists (List.length gs - 1)%nat.
        repeat split; try assumption; unfold n; lia. }
      specialize (Hs _ Hin). simpl in Hs. lia.
    + intros Hcut. apply sorted_snoc; [exact Hfront|].
      constructor; [unfold n; lia|].
      apply Forall_forall. intros z Hz.
      apply detected_cuts_In in Hz as (i & -> & Hi & Hcut').
      assert (i <> List.length gs - 1)%nat by (intros ->; congruence).
      unfold n. lia.
Qed.

Section ScanClaims.

Context {Color : Type}.
Variable cvtColor : Color -> Mat.
Variable show_double : Double.t -> string.
Variable o : options.
Variables r c : Z.
Hypothesis Hdims : frame_dims r c.

(** C2, as the code has it: for a stream of at least 2 frames the marker
    list is 0, then the detected cuts in stream order, then the index of
    the final frame.  It has at least 2 elements and is non-decreasing;
    without its closing element it is strictly increasing and free of
    duplicates; and the whole list is strictly increasing exactly when the
    final frame is not itself a detected cut. *)
Theorem scan_markers_shape (video : list Color) :
  (2 <= List.length video)%nat ->
  Forall (has_size r c) (map cvtColor video) ->
  Z.of_nat (List.length video) <= Int.max ->
  let gs := map cvtColor video in
  let n := Z.of_nat (List.length video) in
  exists st,
    scan cvtColor o video = Ret (Some st) /\
    markers st = (0 :: detected_cuts (threshold o) gs ++ [n - 1])%list /\
    (2 <= List.length (markers st))%nat /\
    hd 0 (markers st) = 0 /\
    last (markers st) 0 = n - 1 /\
    StronglySorted Z.le (markers st) /\
    StronglySorted Z.lt (removelast (markers st)) /\
    NoDup (removelast (markers st)) /\
    (StronglySorted Z.lt (markers st) <->
     cut_at (threshold o) gs (List.length video - 1) = false).
Proof.
  intros Hlen Hgs Hmax gs n.
  destruct (scan_spec cvtColor o r c Hdims video) as (st & Hscan & Hm);
    try assumption.
  { destruct video; simpl in Hlen; [lia | discriminate]. }
  assert (Hlgs : List.length gs = List.length video) by apply length_map.
  destruct (markers_shape_sorted (threshold o) gs) as (Hle & Hlt & Hiff);
    [lia|].
  rewrite Hlgs in Hle, Hlt, Hiff. fold n in Hle, Hlt, Hiff.
  fold gs in Hm. fold n in Hm.
  exists st. rewrite Hm. repeat split; try assumption.
  - simpl. rewrite length_app. simpl. lia.
  - change (0 :: detected_cuts (threshold o) gs ++ [n - 1])%list
      with ((0 :: detected_cuts (threshold o) gs) ++ [n - 1])%list.
    apply last_last.
  - apply increasing_NoDup. exact Hlt.
  - apply Hiff.
  - apply Hiff.
Qed.

(** C3: frame [i >= 1] is among the detected cuts of the marker list (the
    markers between the two sentinels) if and only if its score exceeds the
    threshold and the absolute difference to the previous score ([0] for
    frame 1) exceeds the threshold too; the score is the one that
    [frame_score] computes. *)
Theorem cut_iff_both_thresholds (video : list Color) (i : nat) :
  Forall (has_size r c) (map cvtColor video) ->
  Z.of_nat (List.length video) <= Int.max ->
  (1 <= i < List.length video)%nat ->
  let gs := map cvtColor video in
  exists st,
    scan cvtColor o video = Ret (Some st) /\
    frame_score (nth i gs empty_mat) (nth (i - 1) gs empty_mat) (r * c) =
      Ret (score_at gs i) /\
    (In (Z.of_nat i) (removelast (tl (markers st))) <->
     threshold o < score_at gs i /\
     threshold o < Z.abs (score_at gs i - score_at gs (i - 1))).
Proof.
  intros Hgs Hmax Hi gs.
  destruct (scan_spec cvtColor o r c Hdims video) as (st & Hscan & Hm);
    try assumption.
  { destruct video; simpl in Hi; [lia | discriminate]. }
  assert (Hlgs : List.length gs = List.length video) by apply length_map.
  exists st. split; [exact Hscan|]. split.
  - destruct i as [|j]; [lia|]. simpl score_at.
    replace (S j - 1)%nat with j by lia.
    apply frame_score_mean; try assumption;
      apply Forall_nth_lt; try assumption; lia.
  - rewrite Hm. cbn [tl]. rewrite removelast_last.
    fold gs. rewrite detected_cuts_In. rewrite Hlgs.
    replace (i - 1)%nat with (Nat.pred i) by lia.
    rewrite <- cut_at_true. split.
    + intros (j & Hj & _ & Hcut). apply Nat2Z.inj in Hj. subst j. exact Hcut.
    + intros Hcut. exists i. repeat split; try assumption; lia.
Qed.

(** C1, as the code has it: a stream without any frame makes [main] write
    "need some frames" and return 1 before any scoring; a stream of exactly
    one frame is accepted: the frame loop is not entered, the markers are
    [0; 0], and [main] returns 0 (in plain mode, or with a positive
    minimal duration). *)
Theorem short_stream_outcome (fps : Double.t) (only : Color) :
  inputFile o <> "" ->
  has_size r c (cvtColor only) ->
  ffmpeg o = false \/ 0 < minDuration o ->
  main cvtColor show_double o (Some (fps, [])) =
    Ret (mkRun 1 (banner show_double o fps)
           [inputFile o ++ ": need some frames" ++ nl] []) /\
  exists st run,
    scan cvtColor o [only] = Ret (Some st) /\
    markers st = [0; 0] /\ lastScore st = 0 /\ frame st = 1 /\
    trace st = [] /\
    main cvtColor show_double o (Some (fps, [only])) = Ret run /\
    exit_code run = 0 /\ err run = [] /\
    out run = (banner show_double o fps ++
               (if minDuration o <=? 0 then [plain_line 1 0 0] else []))%list.
Proof.
  intros Hname (Hr & Hc & _) Hmode.
  assert (Hnonempty : String.eqb (inputFile o) "" = false).
  { apply String.eqb_neq. exact Hname. }
  split.
  - unfold main. rewrite Hnonempty. reflexivity.
  - set (st1 := mkState (cvtColor only) only 1 0 [0; 0]
                  ((if saveImages o then [(save_name 0 "in", only)] else []) ++
                   (if saveImages o then [(save_name 0 "out", only)] else []))%list
                  []).
    assert (Hscan : scan cvtColor o [only] = Ret (Some st1)).
    { unfold scan. rewrite Hr, Hc. unfold Int.mul.
      rewrite checked_in_range
        by (destruct Hdims as (? & ? & ?); unfold Int.min in *; lia).
      reflexivity. }
    assert (Hlen : Int.sub 0 0 = Ret 0) by reflexivity.
    assert (Hone : Int.add 0 1 = Ret 1) by reflexivity.
    exists st1. unfold main. rewrite Hnonempty, Hscan.
    cbn [bind markers st1 report report_loop images]. rewrite Hlen.
    cbn [bind].
    destruct (minDuration o <=? 0) eqn:Hmin.
    + destruct Hmode as [Hplain|Hpos]; [|apply Z.leb_le in Hmin; lia].
      unfold emit. rewrite Hplain, Hone. cbn [bind].
      eexists. repeat split.
    + eexists. repeat split.
Qed.

End ScanClaims.

(** A stream of one frame is not refused: [main] returns 0, not 1. *)
Lemma one_frame_stream_returns_0 :
  exists run,
    main (fun m : Mat => m) (fun _ => "30")
         (mkOptions "clip.mp4" false false 50 1000 0)
         (Some (Double.of_Z 30, [mkMat 1 1 [Byte.x00]])) = Ret run /\
    exit_code run = 0 /\ exit_code run <> 1 /\ err run = [] /\ out run = [].
Proof.
  exists (mkRun 0 [] [] []). split; [vm_compute; reflexivity|].
  cbn [exit_code err out]. repeat split. discriminate.
Qed.

Lemma short_stream_outcome_witness :
  let o := mkOptions "clip.mp4" false false 50 1000 0 in
  let only := mkMat 1 1 [Byte.x00] in
  let show := fun _ : Double.t => "30" in
  main (fun m : Mat => m) show o (Some (Double.of_Z 30, [])) =
    Ret (mkRun 1 (banner show o (Double.of_Z 30))
           [inputFile o ++ ": need some frames" ++ nl] []) /\
  exists st run,
    scan (fun m : Mat => m) o [only] = Ret (Some st) /\
    markers st = [0; 0] /\ lastScore st = 0 /\ frame st = 1 /\
    trace st = [] /\
    main (fun m : Mat => m) show o (Some (Double.of_Z 30, [only])) = Ret run /\
    exit_code run = 0 /\ err run = [] /\
    out run = (banner show o (Double.of_Z 30) ++
               (if minDuration o <=? 0 then [plain_line 1 0 0] else []))%list.
Proof.
  intros o only show.
  apply (short_stream_outcome (fun m : Mat => m) show o 1 1).
  - unfold frame_dims, Int.max. lia.
  - discriminate.
  - repeat split; reflexivity.
  - left. reflexivity.
Defined.

(** When the final frame is a detected cut its index is pushed twice: the
    marker list of a black frame followed by a white one is [0; 1; 1]. *)
Lemma final_cut_repeats_marker :
  exists st,
    scan (fun m : Mat => m) (mkOptions "clip.mp4" false false 50 1000 0)
         [mkMat 1 1 [Byte.x00]; mkMat 1 1 [Byte.xff]] = Ret (Some st) /\
    markers st = [0; 1; 1] /\
    ~ StronglySorted Z.lt (markers st) /\
    count_occ Z.eq_dec (markers st) 1 = 2%nat.
Proof.
  eexists. split; [vm_compute; reflexivity|]. cbn [markers].
  split; [reflexivity|]. split; [|reflexivity].
  intros Hs. apply StronglySorted_inv in Hs as [Hs _].
  apply StronglySorted_inv in Hs as [_ Hs].
  apply Forall_inv in Hs. lia.
Qed.

Lemma scan_markers_shape_witness :
  let o := mkOptions "clip.mp4" false false 50 1000 0 in
  let video := [mkMat 1 1 [Byte.x00]; mkMat 1 1 [Byte.xff]; mkMat 1 1 [Byte.xff]] in
  let gs := map (fun m : Mat => m) video in
  let n := Z.of_nat (List.length video) in
  exists st,
    scan (fun m : Mat => m) o video = Ret (Some st) /\
    markers st = (0 :: detected_cuts (threshold o) gs ++ [n - 1])%list /\
    (2 <= List.length (markers st))%nat /\
    hd 0 (markers st) = 0 /\
    last (markers st) 0 = n - 1 /\
    StronglySorted Z.le (markers st) /\
    StronglySorted Z.lt (removelast (markers st)) /\
    NoDup (removelast (markers st)) /\
    (StronglySorted Z.lt (markers st) <->
     cut_at (threshold o) gs (List.length video - 1) = false).
Proof.
  intros o video gs n.
  apply (scan_markers_shape (fun m : Mat => m) o 1 1).
  - unfold frame_dims, Int.max. lia.
  - simpl. lia.
  - repeat constructor.
  - unfold Int.max. simpl. lia.
Defined.

Lemma cut_iff_both_thresholds_witness :
  let o := mkOptions "clip.mp4" false false 50 1000 0 in
  let video := [mkMat 1 1 [Byte.x00]; mkMat 1 1 [Byte.xff]; mkMat 1 1 [Byte.xff]] in
  let gs := map (fun m : Mat => m) video in
  exists st,
    scan (fun m : Mat => m) o video = Ret (Some st) /\
    frame_score (nth 1 gs empty_mat) (nth (1 - 1) gs empty_mat) (1 * 1) =
      Ret (score_at gs 1) /\
    (In (Z.of_nat 1) (removelast (tl (markers st))) <->
     threshold o < score_at gs 1 /\
     threshold o < Z.abs (score_at gs 1 - score_at gs (1 - 1))).
Proof.
  intros o video gs.
  apply (cut_iff_both_thresholds (fun m : Mat => m) o 1 1).
  - unfold frame_dims, Int.max. lia.
  - repeat constructor.
  - unfold Int.max. simpl. lia.
  - simpl. lia.
Defined.

Example scan_three_frames :
  exists st,
    scan (fun m : Mat => m) (mkOptions "clip.mp4" false false 50 1000 0)
      [mkMat 1 1 [Byte.x00]; mkMat 1 1 [Byte.xff]; mkMat 1 1 [Byte.xff]]
    = Ret (Some st) /\ markers st = [0; 1; 2].
Proof. eexists. split; [vm_compute; reflexivity | reflexivity]. Qed.

(** ** The segment report *)

Lemma mapM_ret {A B : Type} (f : A -> B) (l : list A) :
  mapM (fun a => Ret (f a)) l = Ret (map f l).
Proof.
  induction l as [|a l IH]; simpl; [reflexivity|]. rewrite IH. reflexivity.
Qed.

Lemma mapM_ext {A B : Type} (f g : A -> outcome B) (l : list A) :
  (forall a, f a = g a) -> mapM f l = mapM g l.
Proof.
  intros H. induction l as [|a l IH]; simpl; [reflexivity|].
  rewrite H, IH. reflexivity.
Qed.

Lemma numbered_fst {A : Type} (l : list A) (k : nat) :
  map fst (numbered (Z.of_nat k) l) = map Z.of_nat (seq k (List.length l)).
Proof.
  revert k. induction l as [|a l IH]; intros k; simpl; [reflexivity|].
  f_equal. rewrite <- IH. do 2 f_equal. lia.
Qed.

Lemma numbered_snd {A : Type} (l : list A) (k : Z) :
  map snd (numbered k l) = l.
Proof.
  revert k. induction l as [|a l IH]; intros k; simpl; [reflexivity|].
  rewrite IH. reflexivity.
Qed.

Section ReportProofs.

Variable o : options.
Variable fps : Double.t.

Lemma report_loop_spec (rest : list Z) :
  forall prev segment,
    Forall (fun p => Int.min <= snd p - fst p <= Int.max)
           (adjacent (prev :: rest)) ->
    0 <= segment -> segment + Z.of_nat (List.length rest) <= Int.max ->
    report_loop o fps segment prev rest =
    mapM (emit_numbered o fps)
      (numbered (segment + 1)
         (filter (long_enough (minDuration o)) (adjacent (prev :: rest)))).
Proof.
  induction rest as [|cur rest IH]; intros prev segment Hdiff Hseg Hmax.
  - reflexivity.
  - change (adjacent (prev :: cur :: rest))
      with ((prev, cur) :: adjacent (cur :: rest)) in *.
    inversion Hdiff as [|p l Hp Hl]; subst. cbn [fst snd] in Hp.
    cbn [List.length] in Hmax. rewrite Nat2Z.inj_succ in Hmax.
    cbn [report_loop filter]. unfold Int.sub. rewrite checked_in_range by lia.
    cbn [bind]. unfold long_enough at 1. cbn [fst snd].
    destruct (minDuration o <=? cur - prev).
    + unfold Int.add.
      rewrite checked_in_range by (unfold Int.min, Int.max in *; lia).
      cbn [bind numbered mapM]. unfold emit_numbered at 1. cbn [fst snd].
      rewrite (IH cur (segment + 1)) by (try assumption; lia).
      reflexivity.
    + apply IH; try assumption; lia.
Qed.

End ReportProofs.

(** C5: the report walks the adjacent marker pairs in order; a pair shorter
    than the minimal duration writes nothing and takes no number, and the
    pairs that remain are numbered 1, 2, 3, ... in marker order. *)
Theorem report_numbers_survivors (o : options) (fps : Double.t) (markers : list Z) :
  Forall (fun p => Int.min <= snd p - fst p <= Int.max) (adjacent markers) ->
  Z.of_nat (List.length markers) <= Int.max ->
  let survivors := filter (long_enough (minDuration o)) (adjacent markers) in
  report o fps markers = mapM (emit_numbered o fps) (numbered 1 survivors) /\
  map snd (numbered 1 survivors) = survivors /\
  map fst (numbered 1 survivors) =
    map Z.of_nat (seq 1 (List.length survivors)) /\
  (forall p, In p survivors <->
             In p (adjacent markers) /\ ~ snd p - fst p < minDuration o) /\
  (ffmpeg o = false ->
   report o fps markers = Ret (map plain_numbered (numbered 1 survivors))).
Proof.
  intros Hdiff Hlen survivors.
  assert (Hreport : report o fps markers =
                    mapM (emit_numbered o fps) (numbered 1 survivors)).
  { destruct markers as [|first rest]; [reflexivity|].
    cbn [report]. cbn [List.length] in Hlen. rewrite Nat2Z.inj_succ in Hlen.
    rewrite report_loop_spec by (try assumption; lia). reflexivity. }
  split; [exact Hreport|]. split; [apply numbered_snd|].
  split; [apply (numbered_fst survivors 1)|]. split.
  - intros p. unfold survivors. rewrite filter_In. unfold long_enough.
    rewrite Z.leb_le. split; intros [H1 H2]; (split; [exact H1 | lia]).
  - intros Hplain. rewrite Hreport.
    rewrite (mapM_ext _ (fun p => Ret (plain_numbered p))).
    + apply mapM_ret.
    + intros p. unfold emit_numbered, emit. rewrite Hplain. reflexivity.
Qed.

Lemma report_numbers_survivors_witness :
  let o := mkOptions "clip.mp4" false false 50 5 0 in
  let markers := [0; 5; 6; 20] in
  let survivors := filter (long_enough (minDuration o)) (adjacent markers) in
  report o (Double.of_Z 30) markers =
    mapM (emit_numbered o (Double.of_Z 30)) (numbered 1 survivors) /\
  map snd (numbered 1 survivors) = survivors /\
  map fst (numbered 1 survivors) =
    map Z.of_nat (seq 1 (List.length survivors)) /\
  (forall p, In p survivors <->
             In p (adjacent markers) /\ ~ snd p - fst p < minDuration o) /\
  (ffmpeg o = false ->
   report o (Double.of_Z 30) markers =
     Ret (map plain_numbered (numbered 1 survivors))).
Proof.
  intros o markers.
  apply (report_numbers_survivors o (Double.of_Z 30) markers).
  - repeat constructor; simpl; unfold Int.min, Int.max; lia.
  - unfold Int.max. simpl. lia.
Defined.

(** A dropped pair takes no number: with a minimal duration of 5 the markers
    [0; 5; 6; 20] give the segments 1 and 2. *)
Example report_skips_short_pair :
  report (mkOptions "clip.mp4" false false 50 5 0) (Double.of_Z 30) [0; 5; 6; 20]
  = Ret [plain_line 1 0 5; plain_line 2 6 20].
Proof. reflexivity. Qed.

Example report_ffmpeg_line :
  report (mkOptions "clip.mp4" false true 50 100 0) (Double.of_Z 30) [0; 150; 330]
  = Ret ["ffmpeg -ss 00:00:00 -i " ++ dquote ++ "clip.mp4" ++ dquote ++
         " -ss 00:00:00 -t 00:00:06 -c copy -y clip-1.mp4" ++ nl;
         "ffmpeg -ss 00:00:00 -i " ++ dquote ++ "clip.mp4" ++ dquote ++
         " -ss 00:00:05 -t 00:00:07 -c copy -y clip-2.mp4" ++ nl].
Proof. vm_compute. reflexivity. Qed.

(** ** Whole runs

    The scenarios of the ten-frame stream at 30 frames per second. *)
Example ten_frames_markers :
  exists st,
    scan (fun m : Mat => m) (mkOptions "clip.mp4" false false 50 1 0) ten_frames
    = Ret (Some st) /\ markers st = [0; 5; 9] /\ lastScore st = 0.
Proof. eexists. split; [vm_compute; reflexivity | split; reflexivity]. Qed.

Example ten_frames_report :
  main (fun m : Mat => m) (fun _ => "30")
    (mkOptions "clip.mp4" false false 50 1 0) (Some (Double.of_Z 30, ten_frames))
  = Ret (mkRun 0 [plain_line 1 0 5; plain_line 2 5 9] [] []).
Proof. vm_compute. reflexivity. Qed.

Example ten_frames_min_duration_10 :
  main (fun m : Mat => m) (fun _ => "30")
    (mkOptions "clip.mp4" false false 50 10 0) (Some (Double.of_Z 30, ten_frames))
  = Ret (mkRun 0 [] [] []).
Proof. vm_compute. reflexivity. Qed.

Example ten_frames_threshold_100 :
  main (fun m : Mat => m) (fun _ => "30")
    (mkOptions "clip.mp4" false false 100 1 0) (Some (Double.of_Z 30, ten_frames))
  = Ret (mkRun 0 [plain_line 1 0 9] [] []).
Proof. vm_compute. reflexivity. Qed.

Example two_frames_verbose :
  exists st,
    scan (fun m : Mat => m) (mkOptions "clip.mp4" true false 50 1 2)
      [mkMat 1 1 [Byte.x00]; mkMat 1 1 [Byte.x55]] = Ret (Some st) /\
    trace st = ["Frame=1 Score=85 Diff=85" ++ nl] /\
    map fst (images st) =
      ["00000000-in.jpg"; "00000000-out.jpg"; "00000001-in.jpg";
       "00000001-out.jpg"].
Proof. eexists. split; [vm_compute; reflexivity | split; reflexivity]. Qed.

(** * Further properties of the code *)

(** ** The scan: images, trace and final state *)

Section ScanEffects.

Context {Color : Type}.
Variable cvtColor : Color -> Mat.
Variable o : options.
Variables r c : Z.
Hypothesis Hdims : frame_dims r c.

(** One turn of the frame loop with everything it writes. *)
Lemma step_effects (st : state) (currentColor : Color) :
  has_size r c (previous st) -> has_size r c (cvtColor currentColor) ->
  0 <= lastScore st <= 255 -> 1 <= frame st < Int.max ->
  let score := mean_abs_diff (cvtColor currentColor) (previous st) in
  let scoreDiff := Z.abs (score - lastScore st) in
  let cut := (threshold o <? score) && (threshold o <? scoreDiff) in
  exists st',
    step cvtColor o (r * c) st currentColor = Ret st' /\
    previous st' = cvtColor currentColor /\
    frame st' = frame st + 1 /\
    lastScore st' = score /\
    markers st' = (markers st ++ (if cut then [frame st] else []))%list /\
    map fst (images st') =
      (map fst (images st) ++
       (if cut && saveImages o then cut_images (frame st) else []))%list /\
    trace st' =
      (trace st ++
       (if traced (verbose o) (frame st)
        then [("Frame=" ++ Int.to_string (frame st) ++
               " Score=" ++ Int.to_string score ++
               " Diff=" ++ Int.to_string scoreDiff ++ nl)%string]
        else []))%list.
Proof.
  intros Hprev Hcur Hlast Hframe score scoreDiff cut.
  pose proof (mean_abs_diff_bounds r c _ (previous st) Hdims Hcur) as Hscore.
  fold score in Hscore. unfold Int.max in Hframe.
  unfold step. rewrite (frame_score_mean r c _ _ Hdims Hcur Hprev).
  fold score. cbn [bind]. unfold Int.sub at 1.
  rewrite checked_in_range by (unfold Int.min, Int.max; lia).
  cbn [bind]. unfold Int.abs.
  rewrite checked_in_range by (unfold Int.min, Int.max; lia).
  cbn [bind]. fold scoreDiff. fold cut. fold (traced (verbose o) (frame st)).
  unfold Int.add.
  rewrite (checked_in_range (frame st + 1)) by (unfold Int.min, Int.max; lia).
  destruct cut.
  - destruct (saveImages o).
    + unfold Int.sub.
      rewrite checked_in_range by (unfold Int.min, Int.max; lia).
      cbn [bind fst snd]. eexists. split; [reflexivity|].
      cbn [previous frame lastScore markers images trace andb].
      rewrite map_app. repeat split.
    + cbn [bind fst snd]. eexists. split; [reflexivity|].
      cbn [previous frame lastScore markers images trace andb].
      rewrite !app_nil_r. repeat split.
  - cbn [bind fst snd]. eexists. split; [reflexivity|].
    cbn [previous frame lastScore markers images trace andb].
    rewrite !app_nil_r. repeat split.
Qed.

(** The frame loop started at frame [i] of the grayscale stream [gs]. *)
Lemma loop_effects (gs : list Mat) (rest : list Color) :
  Forall (has_size r c) gs ->
  Z.of_nat (List.length gs) <= Int.max ->
  forall (i : nat) (st : state),
    (1 <= i)%nat ->
    skipn i gs = map cvtColor rest ->
    previous st = nth (Nat.pred i) gs empty_mat ->
    lastScore st = score_at gs (Nat.pred i) ->
    frame st = Z.of_nat i ->
    let cuts := map Z.of_nat (filter (cut_at (threshold o) gs)
                                (seq i (List.length rest))) in
    exists st',
      loop cvtColor o (r * c) st rest = Ret st' /\
      frame st' = Z.of_nat (i + List.length rest) /\
      lastScore st' = score_at gs (Nat.pred (i + List.length rest)) /\
      markers st' = (markers st ++ cuts)%list /\
      map fst (images st') =
        (map fst (images st) ++
         (if saveImages o then flat_map cut_images cuts else []))%list /\
      trace st' =
        (trace st ++
         map (trace_line gs)
           (filter (fun j => traced (verbose o) (Z.of_nat j))
              (seq i (List.length rest))))%list.
Proof.
  intros Hgs Hlen.
  induction rest as [|cur rest IH]; intros i st Hi Hskip Hprev Hlast Hframe cuts.
  - exists st. unfold cuts. simpl. rewrite Nat.add_0_r, !app_nil_r.
    destruct (saveImages o); rewrite ?app_nil_r; repeat split; assumption.
  - simpl map in Hskip.
    destruct (skipn_cons_nth i gs _ empty_mat _ Hskip) as (Hnth & Hskip' & Hlt).
    assert (Hsz_prev : has_size r c (previous st)).
    { rewrite Hprev. apply Forall_nth_lt; [assumption | lia]. }
    assert (Hsz_cur : has_size r c (cvtColor cur)).
    { rewrite <- Hnth. apply Forall_nth_lt; assumption. }
    assert (Hlast_b : 0 <= lastScore st <= 255).
    { rewrite Hlast. apply (score_at_bounds r c Hdims); [assumption | lia]. }
    destruct (step_effects st cur Hsz_prev Hsz_cur Hlast_b ltac:(lia))
      as (st1 & Hstep & Hp1 & Hf1 & Hl1 & Hm1 & Hi1 & Ht1).
    assert (Hscore : mean_abs_diff (cvtColor cur) (previous st) = score_at gs i).
    { destruct i as [|j]; [lia|]. simpl score_at. simpl Nat.pred in Hprev.
      rewrite Hnth, Hprev. reflexivity. }
    rewrite Hscore, Hlast, Hframe in Hm1, Hi1, Ht1.
    fold (cut_at (threshold o) gs i) in Hm1, Hi1.
    fold (trace_line gs i) in Ht1.
    destruct (IH (S i) st1) as (st' & Hloop & Hf' & Hl' & Hm' & Hi' & Ht');
      try assumption.
    + lia.
    + simpl Nat.pred. rewrite Hp1. symmetry. exact Hnth.
    + simpl Nat.pred. rewrite Hl1. exact Hscore.
    + rewrite Hf1, Hframe. lia.
    + exists st'. simpl loop. rewrite Hstep. cbn [bind].
      split; [exact Hloop|]. split; [rewrite Hf'; f_equal; simpl; lia|].
      split; [rewrite Hl'; f_equal; simpl; lia|].
      unfold cuts. cbn [List.length seq filter].
      rewrite Hm', Hi', Ht', Hm1, Hi1, Ht1.
      destruct (cut_at (threshold o) gs i); destruct (saveImages o);
        destruct (traced (verbose o) (Z.of_nat i));
        cbn [andb map flat_map app]; rewrite <- ?app_assoc, ?app_nil_r;
        repeat split; reflexivity.
Qed.

(** The state after the scan of a non-empty stream. *)
Lemma scan_effects (video : list Color) :
  video <> [] ->
  Forall (has_size r c) (map cvtColor video) ->
  Z.of_nat (List.length video) <= Int.max ->
  let gs := map cvtColor video in
  let n := Z.of_nat (List.length video) in
  let cuts := detected_cuts (threshold o) gs in
  exists st,
    scan cvtColor o video = Ret (Some st) /\
    frame st = n /\
    lastScore st = score_at gs (Nat.pred (List.length video)) /\
    markers st = (0 :: cuts ++ [n - 1])%list /\
    map fst (images st) = (if saveImages o then image_names cuts n else []) /\
    trace st = trace_lines (verbose o) gs.
Proof.
  intros Hne Hgs Hlen gs n cuts.
  destruct video as [|firstColor rest]; [congruence|].
  assert (Hfirst : has_size r c (cvtColor firstColor)).
  { inversion Hgs; assumption. }
  unfold scan. destruct Hfirst as (Hr & Hc & _). rewrite Hr, Hc.
  unfold Int.mul.
  rewrite checked_in_range
    by (destruct Hdims as (? & ? & ?); unfold Int.min in *; lia).
  cbn [bind].
  match goal with |- context [loop _ _ _ ?s rest] => set (st0 := s) end.
  destruct (loop_effects gs rest Hgs) with (i := 1%nat) (st := st0)
    as (st' & Hloop & Hf' & Hl' & Hm' & Hi' & Ht'); try reflexivity.
  - unfold gs. rewrite length_map. exact Hlen.
  - rewrite Hloop. cbn [bind]. unfold Int.sub.
    cbn [List.length] in Hlen. unfold Int.max in Hlen.
    assert (Hn : n = Z.of_nat (1 + List.length rest)) by (unfold n; f_equal).
    rewrite Hf', <- Hn.
    rewrite checked_in_range by (unfold Int.min, Int.max; lia).
    cbn [bind]. eexists. split; [reflexivity|].
    cbn [frame lastScore markers images trace].
    rewrite Hm', Ht', Hl', map_app, Hi'.
    unfold cuts, detected_cuts, trace_lines, image_names, gs.
    rewrite !length_map. cbn [List.length Nat.pred].
    unfold st0. cbn [markers images trace].
    repeat split.
    destruct (saveImages o); cbn [map fst app]; [|reflexivity].
    reflexivity.
Qed.

End ScanEffects.

(** ** Marker lists and their pairs *)

Lemma filter_none {A : Type} (f : A -> bool) (l : list A) :
  (forall x, In x l -> f x = false) -> filter f l = [].
Proof.
  induction l as [|a l IH]; intros H; simpl; [reflexivity|].
  rewrite (H a) by (left; reflexivity). apply IH. intros x Hx. apply H.
  right. exact Hx.
Qed.

Lemma filter_all {A : Type} (f : A -> bool) (l : list A) :
  (forall x, In x l -> f x = true) -> filter f l = l.
Proof.
  induction l as [|a l IH]; intros H; simpl; [reflexivity|].
  rewrite (H a) by (left; reflexivity). f_equal. apply IH. intros x Hx.
  apply H. right. exact Hx.
Qed.

Lemma adjacent_cons (a b : Z) (l : list Z) :
  adjacent (a :: b :: l) = (a, b) :: adjacent (b :: l).
Proof. reflexivity. Qed.

Lemma adjacent_Forall (P : Z -> Prop) (l : list Z) :
  Forall P l -> Forall (fun p => P (fst p) /\ P (snd p)) (adjacent l).
Proof.
  intros H. apply Forall_forall. intros [a b] Hin. unfold adjacent in Hin.
  rewrite Forall_forall in H. split; apply H.
  - apply (in_combine_l _ _ _ _ Hin).
  - apply in_combine_r in Hin. destruct l; [contradiction | right; exact Hin].
Qed.

Lemma adjacent_ordered (l : list Z) :
  StronglySorted Z.le l -> Forall (fun p => fst p <= snd p) (adjacent l).
Proof.
  induction 1 as [|a l Hl IH Ha]; [constructor|].
  destruct l as [|b l]; [constructor|].
  rewrite adjacent_cons. constructor; [|exact IH].
  apply Forall_inv in Ha. exact Ha.
Qed.

(** The lengths of the adjacent pairs add up to the distance from the first
    marker to the last. *)
Lemma total_length_adjacent (a : Z) (l : list Z) :
  total_length (adjacent (a :: l)) = last (a :: l) a - a.
Proof.
  revert a. induction l as [|b l IH]; intros a; [simpl; lia|].
  rewrite adjacent_cons. cbn [total_length fold_right fst snd].
  fold (total_length (adjacent (b :: l))). rewrite IH.
  change (last (a :: b :: l) a) with (last (b :: l) a).
  assert (Hlast : forall d d', last (b :: l) d = last (b :: l) d').
  { clear. revert b. induction l as [|x l IH]; intros b d d'; [reflexivity|].
    change (last (b :: x :: l) d) with (last (x :: l) d).
    change (last (b :: x :: l) d') with (last (x :: l) d'). apply IH. }
  rewrite (Hlast a b). lia.
Qed.

Lemma length_adjacent (a : Z) (l : list Z) :
  List.length (adjacent (a :: l)) = List.length l.
Proof.
  unfold adjacent. cbn [tl]. rewrite length_combine. cbn [List.length]. lia.
Qed.

(** The marker list [0 :: cuts ++ [n - 1]] of a stream of [n >= 1] frames. *)
Lemma markers_bounds (thr : Z) (gs : list Mat) :
  (1 <= List.length gs)%nat ->
  let n := Z.of_nat (List.length gs) in
  let ms := (0 :: detected_cuts thr gs ++ [n - 1])%list in
  Forall (fun z => 0 <= z <= n - 1) ms /\
  StronglySorted Z.le ms /\
  Z.of_nat (List.length ms) <= n + 1.
Proof.
  intros Hn n ms.
  assert (Hrange : Forall (fun z => 1 <= z <= n - 1) (detected_cuts thr gs)).
  { apply Forall_forall. intros z Hz.
    apply detected_cuts_In in Hz as (i & -> & Hi & _). unfold n. lia. }
  split; [|split].
  - unfold ms. constructor; [unfold n; lia|]. apply Forall_app. split.
    + eapply Forall_impl; [|exact Hrange]. simpl. intros; lia.
    + constructor; [unfold n; lia | constructor].
  - unfold ms. change (0 :: detected_cuts thr gs ++ [n - 1])%list
      with ((0 :: detected_cuts thr gs) ++ [n - 1])%list.
    apply sorted_snoc.
    + constructor.
      * apply (sorted_weaken Z.lt); [intros; lia|].
        apply detected_cuts_increasing.
      * eapply Forall_impl; [|exact Hrange]. simpl. intros; lia.
    + constructor; [unfold n; lia|].
      eapply Forall_impl; [|exact Hrange]. simpl. intros; lia.
  - unfold ms. cbn [List.length]. rewrite length_app. cbn [List.length].
    unfold detected_cuts. rewrite length_map.
    pose proof (filter_length_le (cut_at thr gs)
                  (seq 1 (Nat.pred (List.length gs)))) as Hle.
    rewrite length_seq in Hle. unfold n. lia.
Qed.

Lemma length_flat_map_cut_images (cuts : list Z) :
  List.length (flat_map cut_images cuts) = (2 * List.length cuts)%nat.
Proof.
  induction cuts as [|a l IH]; [reflexivity|].
  cbn [flat_map]. rewrite length_app, IH. cbn [cut_images List.length]. lia.
Qed.

Lemma detected_cuts_none (thr : Z) (gs : list Mat) :
  (forall i, (1 <= i < List.length gs)%nat -> cut_at thr gs i = false) ->
  detected_cuts thr gs = [].
Proof.
  intros H. unfold detected_cuts. rewrite filter_none; [reflexivity|].
  intros i Hi. apply in_seq in Hi. apply H. lia.
Qed.

Lemma detected_cuts_all (thr : Z) (gs : list Mat) :
  (forall i, (1 <= i < List.length gs)%nat -> cut_at thr gs i = true) ->
  detected_cuts thr gs = map Z.of_nat (seq 1 (Nat.pred (List.length gs))).
Proof.
  intros H. unfold detected_cuts. rewrite filter_all; [reflexivity|].
  intros i Hi. apply in_seq in Hi. apply H. lia.
Qed.

Section ScanExtras.

Context {Color : Type}.
Variable cvtColor : Color -> Mat.
Variable o : options.
Variables r c : Z.
Hypothesis Hdims : frame_dims r c.

(** X1: with [--save-images] the scan writes one "in" and one "out" image
    per marker pair: frame 0 as "in", at every cut [k] the frames [k - 1] as
    "out" and [k] as "in", and the final frame as "out"; without the option
    it writes no image. *)
Theorem scan_saved_images (video : list Color) :
  video <> [] ->
  Forall (has_size r c) (map cvtColor video) ->
  Z.of_nat (List.length video) <= Int.max ->
  exists st,
    scan cvtColor o video = Ret (Some st) /\
    (saveImages o = true ->
     map fst (images st) =
       image_names (removelast (tl (markers st)))
                   (Z.of_nat (List.length video)) /\
     List.length (images st) =
       (2 * List.length (adjacent (markers st)))%nat) /\
    (saveImages o = false -> images st = []).
Proof.
  intros Hne Hgs Hlen.
  destruct (scan_effects cvtColor o r c Hdims video Hne Hgs Hlen)
    as (st & Hscan & _ & _ & Hm & Hi & _).
  exists st. split; [exact Hscan|]. rewrite Hm. cbn [tl].
  rewrite removelast_last, length_adjacent. split.
  - intros Hsave. rewrite Hsave in Hi. split; [exact Hi|].
    rewrite <- (length_map fst), Hi. unfold image_names.
    cbn [List.length]. rewrite !length_app, length_flat_map_cut_images.
    cbn [List.length]. lia.
  - intros Hsave. rewrite Hsave in Hi. apply map_eq_nil in Hi. exact Hi.
Qed.

(** X2: the scan writes a [--verbose] line for the frames [i >= 1] that
    [traced] selects, in stream order, with the score and the score
    difference of the frame: none at level 0 or below, one per frame after
    the first at level 2 or above, and at level 1 none for a stream of at
    most 1000 frames. *)
Theorem scan_trace (video : list Color) :
  video <> [] ->
  Forall (has_size r c) (map cvtColor video) ->
  Z.of_nat (List.length video) <= Int.max ->
  exists st,
    scan cvtColor o video = Ret (Some st) /\
    trace st = trace_lines (verbose o) (map cvtColor video) /\
    (verbose o <= 0 -> trace st = []) /\
    (2 <= verbose o ->
     List.length (trace st) = (List.length video - 1)%nat) /\
    (verbose o = 1 -> (List.length video <= 1000)%nat -> trace st = []).
Proof.
  intros Hne Hgs Hlen.
  destruct (scan_effects cvtColor o r c Hdims video Hne Hgs Hlen)
    as (st & Hscan & _ & _ & _ & _ & Ht).
  exists st. split; [exact Hscan|]. split; [exact Ht|].
  rewrite Ht. unfold trace_lines. rewrite length_map.
  split; [|split].
  - intros Hv. rewrite filter_none; [reflexivity|]. intros i _.
    unfold traced.
    replace (1 <? verbose o) with false by (symmetry; apply Z.ltb_ge; lia).
    replace (verbose o =? 1) with false by (symmetry; apply Z.eqb_neq; lia).
    reflexivity.
  - intros Hv. rewrite length_map, filter_all.
    + rewrite length_seq. lia.
    + intros i _. unfold traced.
      replace (1 <? verbose o) with true by (symmetry; apply Z.ltb_lt; lia).
      reflexivity.
  - intros Hv Hn. rewrite filter_none; [reflexivity|]. intros i Hi.
    apply in_seq in Hi. unfold traced. rewrite Hv. cbn [Z.ltb Z.compare orb Z.eqb andb Pos.eqb].
    apply Z.eqb_neq. unfold Int.rem.
    rewrite Z.rem_small by lia. lia.
Qed.

(** X3: a threshold of 255 or more disables the detection: the markers of
    any stream are the two sentinels only. *)
Theorem threshold_255_no_cut (video : list Color) :
  video <> [] ->
  Forall (has_size r c) (map cvtColor video) ->
  Z.of_nat (List.length video) <= Int.max ->
  255 <= threshold o ->
  exists st,
    scan cvtColor o video = Ret (Some st) /\
    markers st = [0; Z.of_nat (List.length video) - 1].
Proof.
  intros Hne Hgs Hlen Hthr.
  destruct (scan_spec cvtColor o r c Hdims video Hne Hgs Hlen)
    as (st & Hscan & Hm).
  exists st. split; [exact Hscan|]. rewrite Hm.
  rewrite detected_cuts_none; [reflexivity|].
  intros i Hi. unfold cut_at.
  pose proof (score_at_bounds r c Hdims (map cvtColor video) i Hgs ltac:(lia)).
  replace (threshold o <? score_at (map cvtColor video) i) with false
    by (symmetry; apply Z.ltb_ge; lia).
  reflexivity.
Qed.

(** X4: a still video has no cut at any threshold [>= 0]: when every frame
    has the same grayscale image the markers are the two sentinels only. *)
Theorem still_video_no_cut (video : list Color) (still : Mat) :
  video <> [] ->
  Forall (has_size r c) (map cvtColor video) ->
  Z.of_nat (List.length video) <= Int.max ->
  Forall (fun f => cvtColor f = still) video ->
  0 <= threshold o ->
  exists st,
    scan cvtColor o video = Ret (Some st) /\
    markers st = [0; Z.of_nat (List.length video) - 1].
Proof.
  intros Hne Hgs Hlen Hstill Hthr.
  destruct (scan_spec cvtColor o r c Hdims video Hne Hgs Hlen)
    as (st & Hscan & Hm).
  exists st. split; [exact Hscan|]. rewrite Hm.
  rewrite detected_cuts_none; [reflexivity|].
  intros i Hi. rewrite length_map in Hi.
  assert (Hnth : forall j, (j < List.length video)%nat ->
                           nth j (map cvtColor video) empty_mat = still).
  { intros j Hj.
    assert (Hin : In (nth j (map cvtColor video) empty_mat) (map cvtColor video))
      by (apply nth_In; rewrite length_map; exact Hj).
    apply in_map_iff in Hin as (f & Hf & Hin). rewrite <- Hf.
    rewrite Forall_forall in Hstill. apply Hstill. exact Hin. }
  assert (Hscore : score_at (map cvtColor video) i = 0).
  { destruct i as [|j]; [reflexivity|]. simpl score_at.
    rewrite !Hnth by lia. unfold mean_abs_diff.
    rewrite sum_abs_diff_same. apply Z.quot_0_l.
    assert (Hs : has_size r c still).
    { rewrite <- (Hnth 0%nat) by lia. apply Forall_nth_lt; [exact Hgs|].
      rewrite length_map. lia. }
    destruct Hs as (_ & _ & Hl). destruct Hdims as (? & ? & ?). lia. }
  unfold cut_at. rewrite Hscore.
  replace (threshold o <? 0) with false by (symmetry; apply Z.ltb_ge; lia).
  reflexivity.
Qed.

(** X5: a negative threshold marks every frame after the first as a cut:
    the markers are [0, 1, ..., n - 1] followed by the closing [n - 1]. *)
Theorem negative_threshold_marks_every_frame (video : list Color) :
  video <> [] ->
  Forall (has_size r c) (map cvtColor video) ->
  Z.of_nat (List.length video) <= Int.max ->
  threshold o < 0 ->
  exists st,
    scan cvtColor o video = Ret (Some st) /\
    markers st =
      (map Z.of_nat (seq 0 (List.length video)) ++
       [Z.of_nat (List.length video) - 1])%list.
Proof.
  intros Hne Hgs Hlen Hthr.
  destruct (scan_spec cvtColor o r c Hdims video Hne Hgs Hlen)
    as (st & Hscan & Hm).
  exists st. split; [exact Hscan|]. rewrite Hm.
  rewrite detected_cuts_all.
  - rewrite length_map. destruct video as [|f rest]; [congruence|]. reflexivity.
  - intros i Hi. apply cut_at_true.
    pose proof (score_at_bounds r c Hdims (map cvtColor video) i Hgs ltac:(lia)).
    lia.
Qed.

(** X6: the marker pairs tile the stream: every pair lies inside
    [[0, n - 1]] with its start not after its end, and the lengths of all
    pairs add up to [n - 1]. *)
Theorem markers_tile_stream (video : list Color) :
  video <> [] ->
  Forall (has_size r c) (map cvtColor video) ->
  Z.of_nat (List.length video) <= Int.max ->
  exists st,
    scan cvtColor o video = Ret (Some st) /\
    Forall (fun p => 0 <= fst p <= snd p /\
                     snd p <= Z.of_nat (List.length video) - 1)
           (adjacent (markers st)) /\
    total_length (adjacent (markers st)) = Z.of_nat (List.length video) - 1.
Proof.
  intros Hne Hgs Hlen.
  destruct (scan_spec cvtColor o r c Hdims video Hne Hgs Hlen)
    as (st & Hscan & Hm).
  assert (Hn : (1 <= List.length (map cvtColor video))%nat).
  { rewrite length_map. destruct video; [congruence | simpl; lia]. }
  destruct (markers_bounds (threshold o) (map cvtColor video) Hn)
    as (Hb & Hs & _).
  rewrite length_map in Hb, Hs.
  exists st. split; [exact Hscan|]. rewrite Hm. split.
  - apply adjacent_Forall in Hb. apply adjacent_ordered in Hs.
    rewrite Forall_forall in *. intros p Hp.
    specialize (Hb p Hp). specialize (Hs p Hp). simpl in Hb. lia.
  - rewrite total_length_adjacent.
    change (0 :: detected_cuts (threshold o) (map cvtColor video) ++
            [Z.of_nat (List.length video) - 1])%list
      with ((0 :: detected_cuts (threshold o) (map cvtColor video)) ++
            [Z.of_nat (List.length video) - 1])%list.
    rewrite last_last. lia.
Qed.

End ScanExtras.

(** ** [main]: exit codes and whole runs *)

Lemma scan_none {Color : Type} (cvtColor : Color -> Mat) (o : options)
  (video : list Color) :
  scan cvtColor o video = Ret None <-> video = [].
Proof.
  split; [|intros ->; reflexivity].
  destruct video as [|f rest]; [reflexivity|]. unfold scan.
  destruct (Int.mul _ _); cbn [bind]; [|discriminate].
  destruct (loop _ _ _ _ _); cbn [bind]; [|discriminate].
  destruct (Int.sub _ _); cbn [bind]; discriminate.
Qed.

(** X7: whenever [main] returns, its exit code is 0 or 1; it is 1 exactly
    when an input file is named and the video cannot be opened or has no
    frame, and then one line is on [std::cerr] and no image is written;
    with exit code 0 nothing is on [std::cerr]. *)
Theorem main_exit_code {Color : Type} (cvtColor : Color -> Mat)
  (show_double : Double.t -> string) (o : options)
  (video : option (Double.t * list Color)) (result : run) :
  main cvtColor show_double o video = Ret result ->
  (exit_code result = 0 \/ exit_code result = 1) /\
  (exit_code result = 1 <->
   inputFile o <> "" /\
   (video = None \/ exists fps, video = Some (fps, []))) /\
  (exit_code result = 1 ->
   written result = [] /\ List.length (err result) = 1%nat) /\
  (exit_code result = 0 -> err result = []).
Proof.
  unfold main. destruct (String.eqb (inputFile o) "") eqn:Hname.
  - intros H. inversion H; subst; clear H. cbn [exit_code err written].
    apply String.eqb_eq in Hname.
    split; [left; reflexivity|]. split; [|split].
    + split; [discriminate | intros [Hne _]; congruence].
    + discriminate.
    + reflexivity.
  - apply String.eqb_neq in Hname.
    destruct video as [[fps frames]|].
    + destruct (scan cvtColor o frames) as [[st|]|f] eqn:Hscan; cbn [bind].
      * destruct (report o fps (markers st)); cbn [bind]; [|discriminate].
        intros H. inversion H; subst; clear H. cbn [exit_code err written].
        split; [left; reflexivity|]. split; [|split].
        -- split; [discriminate|].
           intros [_ [Hv|[fps' Hv]]]; [discriminate|].
           inversion Hv; subst.
           rewrite (proj2 (scan_none cvtColor o []) eq_refl) in Hscan.
           discriminate.
        -- discriminate.
        -- reflexivity.
      * intros H. inversion H; subst; clear H. cbn [exit_code err written].
        apply scan_none in Hscan. subst frames.
        split; [right; reflexivity|]. split; [|split].
        -- split; [|reflexivity]. intros _. split; [exact Hname|].
           right. exists fps. reflexivity.
        -- intros _. split; reflexivity.
        -- discriminate.
      * discriminate.
    + intros H. inversion H; subst; clear H. cbn [exit_code err written].
      split; [right; reflexivity|]. split; [|split].
      * split; [|reflexivity]. intros _. split; [exact Hname|].
        left. reflexivity.
      * intros _. split; reflexivity.
      * discriminate.
Qed.

Lemma main_exit_code_witness :
  let o := mkOptions "clip.mp4" false false 50 1000 0 in
  let video : option (Double.t * list Mat) := Some (Double.of_Z 30, []) in
  let result :=
    mkRun 1 [] [inputFile o ++ ": need some frames" ++ nl] ([] : list (string * Mat)) in
  (exit_code result = 0 \/ exit_code result = 1) /\
  (exit_code result = 1 <->
   inputFile o <> "" /\
   (video = None \/ exists fps, video = Some (fps, []))) /\
  (exit_code result = 1 ->
   written result = [] /\ List.length (err result) = 1%nat) /\
  (exit_code result = 0 -> err result = []).
Proof.
  intros o video result.
  apply (main_exit_code (fun m : Mat => m) (fun _ => "30") o video result).
  reflexivity.
Defined.

Lemma mapM_defined {A B : Type} (f : A -> outcome B) (P : B -> Prop)
  (l : list A) :
  (forall a, In a l -> exists b, f a = Ret b /\ P b) ->
  exists bs, mapM f l = Ret bs /\ List.length bs = List.length l /\
             Forall P bs.
Proof.
  induction l as [|a l IH]; intros H.
  - exists []. repeat split. constructor.
  - destruct (H a) as (b & Hb & HP); [left; reflexivity|].
    destruct IH as (bs & Hbs & Hlen & HF).
    { intros x Hx. apply H. right. exact Hx. }
    exists (b :: bs). simpl. rewrite Hb, Hbs. simpl.
    repeat split; [congruence | constructor; assumption].
Qed.

Lemma mapM_fails {A B : Type} (f : A -> outcome B) (e : fault) (l : list A) :
  l <> [] -> (forall a, In a l -> f a = Fail e) -> mapM f l = Fail e.
Proof.
  destruct l as [|a l]; [congruence|]. intros _ H. simpl.
  rewrite (H a) by (left; reflexivity). reflexivity.
Qed.

Lemma numbered_In {A : Type} (l : list A) (k : Z) (p : Z * A) :
  In p (numbered k l) ->
  k <= fst p < k + Z.of_nat (List.length l) /\ In (snd p) l.
Proof.
  revert k. induction l as [|a l IH]; intros k; simpl; [contradiction|].
  intros [<-|Hin].
  - simpl. split; [lia | left; reflexivity].
  - destruct (IH _ Hin). split; [lia | right; assumption].
Qed.

Lemma length_numbered {A : Type} (l : list A) (k : Z) :
  List.length (numbered k l) = List.length l.
Proof.
  revert k. induction l as [|a l IH]; intros k; simpl; [reflexivity|].
  rewrite IH. reflexivity.
Qed.

(** The report as a whole, when no [int] overflows. *)
Lemma report_spec (o : options) (fps : Double.t) (markers : list Z) :
  Forall (fun p => Int.min <= snd p - fst p <= Int.max) (adjacent markers) ->
  Z.of_nat (List.length markers) <= Int.max ->
  report o fps markers =
  mapM (emit_numbered o fps)
    (numbered 1 (filter (long_enough (minDuration o)) (adjacent markers))).
Proof.
  intros Hdiff Hlen. destruct markers as [|first rest]; [reflexivity|].
  cbn [report]. cbn [List.length] in Hlen. rewrite Nat2Z.inj_succ in Hlen.
  rewrite report_loop_spec by (try assumption; lia). reflexivity.
Qed.

(** The markers of a scan meet the conditions of [report_spec]. *)
Lemma scan_markers_fit (thr : Z) (gs : list Mat) :
  (1 <= List.length gs)%nat ->
  Z.of_nat (List.length gs) < Int.max ->
  let ms := (0 :: detected_cuts thr gs ++ [Z.of_nat (List.length gs) - 1])%list in
  Forall (fun p => Int.min <= snd p - fst p <= Int.max) (adjacent ms) /\
  Z.of_nat (List.length ms) <= Int.max /\
  Forall (fun p => 0 <= fst p <= snd p /\ snd p < Int.max - 1) (adjacent ms).
Proof.
  intros Hn Hmax ms.
  destruct (markers_bounds thr gs Hn) as (Hb & Hs & Hl). fold ms in Hb, Hs, Hl.
  pose proof (adjacent_Forall _ _ Hb) as Hb'.
  pose proof (adjacent_ordered _ Hs) as Hs'.
  unfold Int.min, Int.max in *. repeat split; try lia.
  - rewrite Forall_forall in *. intros p Hp. specialize (Hb' p Hp).
    simpl in Hb'. lia.
  - rewrite Forall_forall in *. intros p Hp. specialize (Hb' p Hp).
    specialize (Hs' p Hp). simpl in Hb'. lia.
Qed.

(** ** [timespec] at the frame rates of real videos *)

Lemma normal_rate_positive (fps : Double.t) :
  normal_rate fps -> Double.positive fps.
Proof.
  destruct fps as [s|s| |[|] m e]; simpl; try contradiction. reflexivity.
Qed.

Lemma timespec_defined (frame : Z) (fps : Double.t) :
  0 <= frame < Int.max -> normal_rate fps ->
  exists t,
    whole_seconds frame fps = Ret t /\ 0 <= t <= frame /\
    timespec frame fps TS_INPUT = Ret (hms (60 * (t / 60))) /\
    timespec frame fps TS_OUTPUT = Ret (hms (t mod 60)) /\
    timespec frame fps TS_DURATION = Ret (hms (t + 1)).
Proof.
  intros Hf Hfps. destruct fps as [s|s| |[|] m e]; simpl in Hfps;
    try contradiction.
  destruct Hfps as [Hm He].
  destruct (whole_seconds_defined frame m e ltac:(lia) Hm He) as (t & Ht & Hb).
  exists t. split; [exact Ht|]. split; [exact Hb|].
  unfold timespec, timespec_seconds. rewrite Ht. cbn [bind].
  rewrite adjust_input, adjust_output, adjust_duration by lia.
  repeat split.
Qed.

(** X11: at a frame rate that is a normal double in [[1, 2^53)], and for a
    frame count from 0 to [INT_MAX - 1], [timespec] returns a timecode in
    each of its three modes; the whole seconds [t] of [frame / fps] are
    defined and lie between 0 and the frame count. *)
Theorem timespec_returns_at_normal_rates (frame : Z) (fps : Double.t) :
  0 <= frame < Int.max -> normal_rate fps ->
  exists t,
    whole_seconds frame fps = Ret t /\ 0 <= t <= frame /\
    timespec frame fps TS_INPUT = Ret (hms (60 * (t / 60))) /\
    timespec frame fps TS_OUTPUT = Ret (hms (t mod 60)) /\
    timespec frame fps TS_DURATION = Ret (hms (t + 1)).
Proof.
  intros Hf Hfps.
  destruct fps as [s|s| |[|] m e]; simpl in Hfps; try contradiction.
  destruct Hfps as [Hm He].
  destruct (whole_seconds_defined frame m e ltac:(lia) Hm He) as (t & Ht & Hb).
  exists t. split; [exact Ht|]. split; [exact Hb|].
  unfold timespec, timespec_seconds. rewrite Ht. cbn [bind]. split; [|split].
  - rewrite adjust_input by lia. reflexivity.
  - rewrite adjust_output by lia. reflexivity.
  - rewrite adjust_duration by lia. reflexivity.
Qed.

Lemma timespec_returns_at_normal_rates_witness :
  exists t,
    whole_seconds 4000 (S754_finite false 8435805052018360 (-48)) = Ret t /\
    0 <= t <= 4000 /\
    timespec 4000 (S754_finite false 8435805052018360 (-48)) TS_INPUT =
      Ret (hms (60 * (t / 60))) /\
    timespec 4000 (S754_finite false 8435805052018360 (-48)) TS_OUTPUT =
      Ret (hms (t mod 60)) /\
    timespec 4000 (S754_finite false 8435805052018360 (-48)) TS_DURATION =
      Ret (hms (t + 1)).
Proof.
  apply (timespec_returns_at_normal_rates 4000
           (S754_finite false 8435805052018360 (-48))).
  - unfold Int.max. lia.
  - simpl. lia.
Defined.

(** X12: at an integer frame rate [rate >= 1] the three timecodes are those
    of the integer quotient [q = frame / rate]: the minute boundary
    [60 * (q / 60)], the remainder [q mod 60], and [q + 1]. *)
Theorem timespec_at_integer_rate (frame rate : Z) :
  0 <= frame < Int.max -> 0 < rate < 2 ^ 53 ->
  timespec frame (Double.of_Z rate) TS_INPUT =
    Ret (hms (60 * (frame / rate / 60))) /\
  timespec frame (Double.of_Z rate) TS_OUTPUT =
    Ret (hms ((frame / rate) mod 60)) /\
  timespec frame (Double.of_Z rate) TS_DURATION =
    Ret (hms (frame / rate + 1)).
Proof.
  intros Hf Hr.
  assert (Hq : 0 <= frame / rate <= frame).
  { split; [apply Z.div_pos; lia|].
    apply Z.div_le_upper_bound; [lia|]. nia. }
  unfold timespec, timespec_seconds.
  rewrite whole_seconds_integer_rate by lia. cbn [bind].
  rewrite adjust_input, adjust_output, adjust_duration by lia.
  repeat split.
Qed.

Lemma timespec_at_integer_rate_witness :
  timespec 4000 (Double.of_Z 25) TS_INPUT =
    Ret (hms (60 * (4000 / 25 / 60))) /\
  timespec 4000 (Double.of_Z 25) TS_OUTPUT =
    Ret (hms ((4000 / 25) mod 60)) /\
  timespec 4000 (Double.of_Z 25) TS_DURATION =
    Ret (hms (4000 / 25 + 1)).
Proof.
  apply (timespec_at_integer_rate 4000 25); [unfold Int.max |]; lia.
Defined.

(** ** Whole runs of [main] *)

Lemma segmentfile_dotted (basis : string) (segment : Z) :
  Str.contains "." basis = true -> (Str.size basis < Str.npos)%N ->
  exists file, segmentfile basis segment = Ret file.
Proof.
  intros Hdot Hsize. destruct (split_at_last _ _ Hdot) as (stem & ext & -> & Hext).
  eexists. apply segmentfile_split; assumption.
Qed.

Lemma segmentfile_no_dot (basis : string) (segment : Z) :
  Str.contains "." basis = false -> (Str.size basis < Str.npos)%N ->
  segmentfile basis segment = Fail OutOfRange.
Proof.
  intros Hdot Hsize. unfold segmentfile, Str.rfind.
  rewrite (last_index_absent _ _ Hdot). unfold Str.substr.
  replace (Str.size basis <? 0)%N with false by (symmetry; apply N.ltb_ge; lia).
  replace (Str.size basis <? Str.npos)%N with true
    by (symmetry; apply N.ltb_lt; assumption).
  reflexivity.
Qed.

(** The three timecodes of an extraction command are defined; the command
    fails only through [segmentfile]. *)
Lemma ffmpeg_line_defined (o : options) (fps : Double.t) (k start stop : Z) :
  normal_rate fps -> 0 <= start <= stop -> stop < Int.max ->
  exists seek offset duration,
    ffmpeg_line o fps k start stop =
    (file <- segmentfile (inputFile o) k ;;
     Ret ("ffmpeg" ++ " -ss " ++ seek ++ " -i " ++ dquote ++ inputFile o ++
          dquote ++ " -ss " ++ offset ++ " -t " ++ duration ++ " -c copy" ++
          " -y" ++ " " ++ file ++ nl)).
Proof.
  intros Hfps Hs Hmax.
  destruct (timespec_defined start fps ltac:(lia) Hfps)
    as (t & _ & _ & Hin & Hout & _).
  destruct (timespec_defined (stop - start) fps ltac:(lia) Hfps)
    as (d & _ & _ & _ & _ & Hdur).
  exists (hms (60 * (t / 60))), (hms (t mod 60)), (hms (d + 1)).
  unfold ffmpeg_line. rewrite Hin, Hout. cbn [bind]. unfold Int.sub.
  rewrite checked_in_range by (unfold Int.min, Int.max in *; lia).
  cbn [bind]. rewrite Hdur. reflexivity.
Qed.

Section MainRuns.

Context {Color : Type}.
Variable cvtColor : Color -> Mat.
Variable show_double : Double.t -> string.
Variable o : options.
Variables r c : Z.
Hypothesis Hdims : frame_dims r c.

(** The run up to the report. *)
Lemma main_scanned (fps : Double.t) (video : list Color) :
  inputFile o <> "" ->
  video <> [] ->
  Forall (has_size r c) (map cvtColor video) ->
  Z.of_nat (List.length video) < Int.max ->
  exists st,
    scan cvtColor o video = Ret (Some st) /\
    trace st = trace_lines (verbose o) (map cvtColor video) /\
    Forall (fun p => 0 <= fst p <= snd p /\ snd p < Int.max - 1)
           (adjacent (markers st)) /\
    main cvtColor show_double o (Some (fps, video)) =
    (lines <- mapM (emit_numbered o fps)
                (numbered 1 (filter (long_enough (minDuration o))
                               (adjacent (markers st)))) ;;
     Ret (mkRun 0 (banner show_double o fps ++ trace st ++ lines)%list []
            (images st))).
Proof.
  intros Hname Hne Hgs Hlen.
  destruct (scan_effects cvtColor o r c Hdims video Hne Hgs ltac:(lia))
    as (st & Hscan & _ & _ & Hm & _ & Ht).
  assert (Hn : (1 <= List.length (map cvtColor video))%nat).
  { rewrite length_map. destruct video; [congruence | simpl; lia]. }
  destruct (scan_markers_fit (threshold o) (map cvtColor video) Hn)
    as (Hdiff & Hcount & Hbounds).
  { rewrite length_map. exact Hlen. }
  rewrite length_map in Hdiff, Hcount, Hbounds. rewrite <- Hm in *.
  exists st. split; [exact Hscan|]. split; [exact Ht|].
  split; [exact Hbounds|].
  unfold main. apply String.eqb_neq in Hname. rewrite Hname, Hscan.
  cbn [bind]. rewrite report_spec by assumption. reflexivity.
Qed.

(** X8: in plain mode [main] never fails on a stream of frames of one size:
    it returns 0, and [std::cout] holds the [--verbose] lines followed by
    one line [N: start - end] per marker pair that is long enough, numbered
    from 1. *)
Theorem main_plain_mode (fps : Double.t) (video : list Color) :
  inputFile o <> "" -> ffmpeg o = false ->
  video <> [] ->
  Forall (has_size r c) (map cvtColor video) ->
  Z.of_nat (List.length video) < Int.max ->
  exists st,
    scan cvtColor o video = Ret (Some st) /\
    main cvtColor show_double o (Some (fps, video)) =
    Ret (mkRun 0
           (banner show_double o fps ++
            trace_lines (verbose o) (map cvtColor video) ++
            map plain_numbered
              (numbered 1 (filter (long_enough (minDuration o))
                             (adjacent (markers st)))))%list
           [] (images st)).
Proof.
  intros Hname Hplain Hne Hgs Hlen.
  destruct (main_scanned fps video Hname Hne Hgs Hlen)
    as (st & Hscan & Ht & _ & Hmain).
  exists st. split; [exact Hscan|]. rewrite Hmain, Ht.
  rewrite (mapM_ext _ (fun p => Ret (plain_numbered p))).
  - rewrite mapM_ret. reflexivity.
  - intros p. unfold emit_numbered, emit. rewrite Hplain. reflexivity.
Qed.

(** X9: in ffmpeg mode, with an input file name that has an extension and a
    frame rate that is a normal double in [[1, 2^53)], [main] never fails on
    a stream of frames of one size: it returns 0 and writes one command,
    starting with "ffmpeg -ss ", per marker pair that is long enough. *)
Theorem main_ffmpeg_mode (fps : Double.t) (video : list Color) :
  inputFile o <> "" -> ffmpeg o = true ->
  Str.contains "." (inputFile o) = true ->
  (Str.size (inputFile o) < Str.npos)%N ->
  normal_rate fps ->
  video <> [] ->
  Forall (has_size r c) (map cvtColor video) ->
  Z.of_nat (List.length video) < Int.max ->
  exists st lines,
    scan cvtColor o video = Ret (Some st) /\
    main cvtColor show_double o (Some (fps, video)) =
    Ret (mkRun 0
           (banner show_double o fps ++
            trace_lines (verbose o) (map cvtColor video) ++ lines)%list
           [] (images st)) /\
    List.length lines =
      List.length (filter (long_enough (minDuration o))
                     (adjacent (markers st))) /\
    Forall (fun line => String.prefix "ffmpeg -ss " line = true) lines.
Proof.
  intros Hname Hff Hdot Hsize Hfps Hne Hgs Hlen.
  destruct (main_scanned fps video Hname Hne Hgs Hlen)
    as (st & Hscan & Ht & Hbounds & Hmain).
  destruct (mapM_defined (emit_numbered o fps)
              (fun line => String.prefix "ffmpeg -ss " line = true)
              (numbered 1 (filter (long_enough (minDuration o))
                             (adjacent (markers st)))))
    as (lines & Hlines & Hcount & Hshape).
  { intros p Hp. apply numbered_In in Hp as [_ Hp].
    apply filter_In in Hp as [Hp _].
    rewrite Forall_forall in Hbounds. specialize (Hbounds _ Hp).
    destruct (ffmpeg_line_defined o fps (fst p) (fst (snd p)) (snd (snd p)) Hfps)
      as (seek & offset & duration & Hline); try lia.
    destruct (segmentfile_dotted (inputFile o) (fst p) Hdot Hsize)
      as (file & Hfile).
    unfold emit_numbered, emit. rewrite Hff, Hline, Hfile. cbn [bind].
    eexists. split; [reflexivity|]. cbn.
    match goal with |- String.prefix "" ?x = true => destruct x; reflexivity end. }
  exists st, lines. split; [exact Hscan|].
  rewrite Hmain, Hlines, Ht. cbn [bind].
  rewrite length_numbered in Hcount. repeat split; assumption.
Qed.

(** X10: in ffmpeg mode with an input file name without any ['.'], [main]
    ends by the exception [std::out_of_range] as soon as one marker pair is
    long enough; when none is, it returns 0 without any command. *)
Theorem main_ffmpeg_without_extension (fps : Double.t) (video : list Color) :
  inputFile o <> "" -> ffmpeg o = true ->
  Str.contains "." (inputFile o) = false ->
  (Str.size (inputFile o) < Str.npos)%N ->
  normal_rate fps ->
  video <> [] ->
  Forall (has_size r c) (map cvtColor video) ->
  Z.of_nat (List.length video) < Int.max ->
  exists st,
    scan cvtColor o video = Ret (Some st) /\
    main cvtColor show_double o (Some (fps, video)) =
    match filter (long_enough (minDuration o)) (adjacent (markers st)) with
    | [] =>
        Ret (mkRun 0
               (banner show_double o fps ++
                trace_lines (verbose o) (map cvtColor video))%list
               [] (images st))
    | _ :: _ => Fail OutOfRange
    end.
Proof.
  intros Hname Hff Hdot Hsize Hfps Hne Hgs Hlen.
  destruct (main_scanned fps video Hname Hne Hgs Hlen)
    as (st & Hscan & Ht & Hbounds & Hmain).
  exists st. split; [exact Hscan|]. rewrite Hmain, Ht.
  destruct (filter (long_enough (minDuration o)) (adjacent (markers st)))
    as [|p survivors] eqn:Hsurv.
  - cbn [numbered mapM bind]. rewrite app_nil_r. reflexivity.
  - rewrite (mapM_fails _ OutOfRange); [reflexivity | discriminate |].
    intros q Hq. apply numbered_In in Hq as [_ Hq].
    assert (Hin : In (snd q) (adjacent (markers st))).
    { assert (Hf : In (snd q) (filter (long_enough (minDuration o))
                                 (adjacent (markers st))))
        by (rewrite Hsurv; exact Hq).
      apply filter_In in Hf as [Hf _]. exact Hf. }
    rewrite Forall_forall in Hbounds. specialize (Hbounds _ Hin).
    destruct (ffmpeg_line_defined o fps (fst q) (fst (snd q)) (snd (snd q)) Hfps)
      as (seek & offset & duration & Hline); try lia.
    unfold emit_numbered, emit. rewrite Hff, Hline.
    rewrite (segmentfile_no_dot _ _ Hdot Hsize). reflexivity.
Qed.

End MainRuns.

(** *** Instances on the ten-frame stream *)

Lemma ten_frames_sized : Forall (has_size 1 1) (map (fun m : Mat => m) ten_frames).
Proof. unfold ten_frames. simpl. repeat constructor. Qed.

Lemma dims_1x1 : frame_dims 1 1.
Proof. unfold frame_dims, Int.max. lia. Qed.

Lemma rate_30_normal : normal_rate (Double.of_Z 30).
Proof.
  change (normal_rate (S754_finite false 8444249301319680 (-48))).
  unfold normal_rate. lia.
Qed.

Lemma scan_saved_images_witness :
  let o := mkOptions "clip.mp4" true false 50 1 0 in
  exists st,
    scan (fun m : Mat => m) o ten_frames = Ret (Some st) /\
    (saveImages o = true ->
     map fst (images st) =
       image_names (removelast (tl (markers st)))
                   (Z.of_nat (List.length ten_frames)) /\
     List.length (images st) =
       (2 * List.length (adjacent (markers st)))%nat) /\
    (saveImages o = false -> images st = []).
Proof.
  intros o.
  apply (scan_saved_images (fun m : Mat => m) o 1 1 dims_1x1 ten_frames).
  - discriminate.
  - exact ten_frames_sized.
  - unfold Int.max. simpl. lia.
Defined.

Lemma scan_trace_witness :
  let o := mkOptions "clip.mp4" false false 50 1 2 in
  exists st,
    scan (fun m : Mat => m) o ten_frames = Ret (Some st) /\
    trace st = trace_lines (verbose o) (map (fun m : Mat => m) ten_frames) /\
    (verbose o <= 0 -> trace st = []) /\
    (2 <= verbose o ->
     List.length (trace st) = (List.length ten_frames - 1)%nat) /\
    (verbose o = 1 -> (List.length ten_frames <= 1000)%nat -> trace st = []).
Proof.
  intros o.
  apply (scan_trace (fun m : Mat => m) o 1 1 dims_1x1 ten_frames).
  - discriminate.
  - exact ten_frames_sized.
  - unfold Int.max. simpl. lia.
Defined.

Lemma threshold_255_no_cut_witness :
  exists st,
    scan (fun m : Mat => m) (mkOptions "clip.mp4" false false 255 1 0) ten_frames
    = Ret (Some st) /\
    markers st = [0; Z.of_nat (List.length ten_frames) - 1].
Proof.
  apply (threshold_255_no_cut (fun m : Mat => m)
           (mkOptions "clip.mp4" false false 255 1 0) 1 1 dims_1x1 ten_frames).
  - discriminate.
  - exact ten_frames_sized.
  - unfold Int.max. simpl. lia.
  - simpl. lia.
Defined.

Lemma still_video_no_cut_witness :
  let still := mkMat 1 1 [Byte.x55] in
  let video := [still; still; still] in
  exists st,
    scan (fun m : Mat => m) (mkOptions "clip.mp4" false false 50 1 0) video
    = Ret (Some st) /\
    markers st = [0; Z.of_nat (List.length video) - 1].
Proof.
  intros still video.
  apply (still_video_no_cut (fun m : Mat => m)
           (mkOptions "clip.mp4" false false 50 1 0) 1 1 dims_1x1 video still).
  - discriminate.
  - repeat constructor.
  - unfold Int.max. simpl. lia.
  - repeat constructor.
  - simpl. lia.
Defined.

Lemma negative_threshold_marks_every_frame_witness :
  exists st,
    scan (fun m : Mat => m) (mkOptions "clip.mp4" false false (-1) 1 0) ten_frames
    = Ret (Some st) /\
    markers st =
      (map Z.of_nat (seq 0 (List.length ten_frames)) ++
       [Z.of_nat (List.length ten_frames) - 1])%list.
Proof.
  apply (negative_threshold_marks_every_frame (fun m : Mat => m)
           (mkOptions "clip.mp4" false false (-1) 1 0) 1 1 dims_1x1 ten_frames).
  - discriminate.
  - exact ten_frames_sized.
  - unfold Int.max. simpl. lia.
  - simpl. lia.
Defined.

Lemma markers_tile_stream_witness :
  exists st,
    scan (fun m : Mat => m) (mkOptions "clip.mp4" false false 50 1 0) ten_frames
    = Ret (Some st) /\
    Forall (fun p => 0 <= fst p <= snd p /\
                     snd p <= Z.of_nat (List.length ten_frames) - 1)
           (adjacent (markers st)) /\
    total_length (adjacent (markers st)) = Z.of_nat (List.length ten_frames) - 1.
Proof.
  apply (markers_tile_stream (fun m : Mat => m)
           (mkOptions "clip.mp4" false false 50 1 0) 1 1 dims_1x1 ten_frames).
  - discriminate.
  - exact ten_frames_sized.
  - unfold Int.max. simpl. lia.
Defined.

Lemma main_plain_mode_witness :
  let o := mkOptions "clip.mp4" false false 50 1 0 in
  let show := fun _ : Double.t => "30" in
  exists st,
    scan (fun m : Mat => m) o ten_frames = Ret (Some st) /\
    main (fun m : Mat => m) show o (Some (Double.of_Z 30, ten_frames)) =
    Ret (mkRun 0
           (banner show o (Double.of_Z 30) ++
            trace_lines (verbose o) (map (fun m : Mat => m) ten_frames) ++
            map plain_numbered
              (numbered 1 (filter (long_enough (minDuration o))
                             (adjacent (markers st)))))%list
           [] (images st)).
Proof.
  intros o show.
  apply (main_plain_mode (fun m : Mat => m) show o 1 1 dims_1x1).
  - discriminate.
  - reflexivity.
  - discriminate.
  - exact ten_frames_sized.
  - unfold Int.max. simpl. lia.
Defined.

Lemma main_ffmpeg_mode_witness :
  let o := mkOptions "clip.mp4" false true 50 1 0 in
  let show := fun _ : Double.t => "30" in
  exists st lines,
    scan (fun m : Mat => m) o ten_frames = Ret (Some st) /\
    main (fun m : Mat => m) show o (Some (Double.of_Z 30, ten_frames)) =
    Ret (mkRun 0
           (banner show o (Double.of_Z 30) ++
            trace_lines (verbose o) (map (fun m : Mat => m) ten_frames) ++
            lines)%list
           [] (images st)) /\
    List.length lines =
      List.length (filter (long_enough (minDuration o))
                     (adjacent (markers st))) /\
    Forall (fun line => String.prefix "ffmpeg -ss " line = true) lines.
Proof.
  intros o show.
  apply (main_ffmpeg_mode (fun m : Mat => m) show o 1 1 dims_1x1).
  - discriminate.
  - reflexivity.
  - reflexivity.
  - reflexivity.
  - exact rate_30_normal.
  - discriminate.
  - exact ten_frames_sized.
  - unfold Int.max. simpl. lia.
Defined.

Lemma main_ffmpeg_without_extension_witness :
  let o := mkOptions "clip" false true 50 1 0 in
  let show := fun _ : Double.t => "30" in
  exists st,
    scan (fun m : Mat => m) o ten_frames = Ret (Some st) /\
    main (fun m : Mat => m) show o (Some (Double.of_Z 30, ten_frames)) =
    match filter (long_enough (minDuration o)) (adjacent (markers st)) with
    | [] =>
        Ret (mkRun 0
               (banner show o (Double.of_Z 30) ++
                trace_lines (verbose o) (map (fun m : Mat => m) ten_frames))%list
               [] (images st))
    | _ :: _ => Fail OutOfRange
    end.
Proof.
  intros o show.
  apply (main_ffmpeg_without_extension (fun m : Mat => m) show o 1 1 dims_1x1).
  - discriminate.
  - reflexivity.
  - reflexivity.
  - reflexivity.
  - exact rate_30_normal.
  - discriminate.
  - exact ten_frames_sized.
  - unfold Int.max. simpl. lia.
Defined.

Example ffmpeg_without_extension_aborts :
  main (fun m : Mat => m) (fun _ => "30")
    (mkOptions "clip" false true 50 1 0) (Some (Double.of_Z 30, ten_frames))
  = Fail OutOfRange.
Proof. vm_compute. reflexivity. Qed.

(** ** The text of timecodes and file names *)

Lemma fields_below_100 :
  forallb (fun k => two_digits (setw 2 "0" (Int.to_string (Z.of_nat k))))
          (seq 0 100) = true.
Proof. vm_compute. reflexivity. Qed.

Lemma two_digit_field (v : Z) :
  0 <= v < 100 -> two_digits (setw 2 "0" (Int.to_string v)) = true.
Proof.
  intros Hv. pose proof fields_below_100 as H.
  rewrite forallb_forall in H. specialize (H (Z.to_nat v)).
  rewrite Z2Nat.id in H by lia. apply H. apply in_seq. lia.
Qed.

(** X13: below 100 hours a timecode has the exact form DD:DD:DD: three
    fields of two decimal digits each, for the hours, the minutes of the
    hour and the seconds of the minute. *)
Theorem hms_two_digit_fields (t : Z) :
  0 <= t < 360000 ->
  exists h m s,
    hms t = h ++ ":" ++ m ++ ":" ++ s /\
    h = setw 2 "0" (Int.to_string (t / 3600)) /\
    m = setw 2 "0" (Int.to_string ((t / 60) mod 60)) /\
    s = setw 2 "0" (Int.to_string (t mod 60)) /\
    two_digits h = true /\ two_digits m = true /\ two_digits s = true /\
    String.length (hms t) = 8%nat.
Proof.
  intros Ht.
  assert (Hq : 0 <= t / 60) by (apply Z.div_pos; lia).
  assert (Hh : 0 <= t / 3600 < 100).
  { split; [apply Z.div_pos; lia | apply Z.div_lt_upper_bound; lia]. }
  pose proof (Z.mod_pos_bound (t / 60) 60 ltac:(lia)) as Hm.
  pose proof (Z.mod_pos_bound t 60 ltac:(lia)) as Hs.
  assert (Hhms : hms t =
                 setw 2 "0" (Int.to_string (t / 3600)) ++ ":" ++
                 setw 2 "0" (Int.to_string ((t / 60) mod 60)) ++ ":" ++
                 setw 2 "0" (Int.to_string (t mod 60))).
  { unfold hms. rewrite (div_nonneg t 60), (rem_nonneg t 60) by lia.
    rewrite (div_nonneg (t / 60) 60), (rem_nonneg (t / 60) 60) by lia.
    rewrite Z.div_div by lia. reflexivity. }
  pose proof (two_digit_field _ Hh) as Fh.
  pose proof (two_digit_field ((t / 60) mod 60) ltac:(lia)) as Fm.
  pose proof (two_digit_field (t mod 60) ltac:(lia)) as Fs.
  do 3 eexists. split; [exact Hhms|].
  repeat (split; [first [reflexivity | assumption]|]).
  rewrite Hhms.
  destruct (setw 2 "0" (Int.to_string (t / 3600))) as [|a1 [|a2 [|]]];
    try discriminate.
  destruct (setw 2 "0" (Int.to_string ((t / 60) mod 60))) as [|b1 [|b2 [|]]];
    try discriminate.
  destruct (setw 2 "0" (Int.to_string (t mod 60))) as [|c1 [|c2 [|]]];
    try discriminate.
  reflexivity.
Qed.

Lemma hms_two_digit_fields_witness :
  exists h m s,
    hms 45296 = h ++ ":" ++ m ++ ":" ++ s /\
    h = setw 2 "0" (Int.to_string (45296 / 3600)) /\
    m = setw 2 "0" (Int.to_string ((45296 / 60) mod 60)) /\
    s = setw 2 "0" (Int.to_string (45296 mod 60)) /\
    two_digits h = true /\ two_digits m = true /\ two_digits s = true /\
    String.length (hms 45296) = 8%nat.
Proof. apply (hms_two_digit_fields 45296). lia. Defined.

Lemma to_string_inj (a b : Z) : Int.to_string a = Int.to_string b -> a = b.
Proof.
  assert (Hnil : forall z, Z.to_int z <> Decimal.Pos Decimal.Nil /\
                           Z.to_int z <> Decimal.Neg Decimal.Nil).
  { intros z. split; intros H; pose proof (f_equal Z.of_int H) as Hz;
      rewrite DecimalZ.of_to in Hz; simpl in Hz; subst z; discriminate H. }
  intros H. unfold Int.to_string in H.
  apply (f_equal NilZero.int_of_string) in H.
  rewrite !NilZero.isi in H by apply Hnil.
  inversion H as [H']. apply (f_equal Z.of_int) in H'.
  rewrite !DecimalZ.of_to in H'. exact H'.
Qed.

Lemma append_cancel_l (s t1 t2 : string) : s ++ t1 = s ++ t2 -> t1 = t2.
Proof.
  induction s as [|a s IH]; simpl; intros H; [exact H|].
  inversion H. auto.
Qed.

Lemma append_cancel_r (t s1 s2 : string) : s1 ++ t = s2 ++ t -> s1 = s2.
Proof.
  revert s2. induction s1 as [|a s1 IH]; intros [|b s2] H; simpl in H.
  - reflexivity.
  - apply (f_equal String.length) in H. simpl in H.
    rewrite length_append in H. lia.
  - apply (f_equal String.length) in H. simpl in H.
    rewrite length_append in H. lia.
  - inversion H. f_equal. auto.
Qed.

(** X14: for an input file name with an extension, the output files of two
    different segment numbers are different, and no output file is the
    input file itself. *)
Theorem segmentfile_never_collides (basis : string) (a b : Z) :
  Str.contains "." basis = true ->
  (Str.size basis < Str.npos)%N ->
  exists fa fb,
    segmentfile basis a = Ret fa /\ segmentfile basis b = Ret fb /\
    fa <> basis /\ (a <> b -> fa <> fb).
Proof.
  intros Hdot Hsize.
  destruct (split_at_last _ _ Hdot) as (stem & ext & -> & Hext).
  rewrite !segmentfile_split by assumption.
  do 2 eexists. split; [reflexivity|]. split; [reflexivity|]. split.
  - intros H. apply append_cancel_l in H. discriminate.
  - intros Hab H. apply append_cancel_l in H.
    change ("-" ++ Int.to_string a ++ String "." ext)
      with (String "-" (Int.to_string a ++ String "." ext)) in H.
    change ("-" ++ Int.to_string b ++ String "." ext)
      with (String "-" (Int.to_string b ++ String "." ext)) in H.
    inversion H as [H']. apply append_cancel_r in H'.
    apply to_string_inj in H'. contradiction.
Qed.

Lemma segmentfile_never_collides_witness :
  exists fa fb,
    segmentfile "clip.mp4" 1 = Ret fa /\ segmentfile "clip.mp4" 2 = Ret fb /\
    fa <> "clip.mp4" /\ (1 <> 2 -> fa <> fb).
Proof.
  apply (segmentfile_never_collides "clip.mp4" 1 2); reflexivity.
Defined.

(** ** The command line *)

Section CommandLineProofs.

Variable atoi : string -> Z.

Lemma set_option_nonzero (o o' : options) (opt : cli_option) :
  set_option atoi o opt = Some o' ->
  threshold o <> 0 /\ minDuration o <> 0 ->
  threshold o' <> 0 /\ minDuration o' <> 0.
Proof.
  intros Hset [Ht Hm].
  destruct opt; simpl in Hset; inversion Hset; subst; clear Hset;
    cbn [threshold minDuration]; try (split; assumption).
  - split; [|assumption].
    destruct (atoi optarg =? 0) eqn:E; [discriminate|].
    apply Z.eqb_neq in E. exact E.
  - split; [assumption|].
    destruct (atoi optarg =? 0) eqn:E; [discriminate|].
    apply Z.eqb_neq in E. exact E.
Qed.

Lemma parse_options_nonzero (cl : list cli_option) :
  forall o o',
    parse_options atoi o cl = Some o' ->
    threshold o <> 0 /\ minDuration o <> 0 ->
    threshold o' <> 0 /\ minDuration o' <> 0.
Proof.
  induction cl as [|opt cl IH]; intros o o' Hparse Hinv; simpl in Hparse.
  - inversion Hparse; subst. exact Hinv.
  - destruct (set_option atoi o opt) as [o1|] eqn:Hset; [|discriminate].
    apply (IH o1 o' Hparse). apply (set_option_nonzero o o1 opt Hset Hinv).
Qed.

(** X15: whatever the command line, the options that reach the scan never
    have a threshold of 0 nor a minimal duration of 0: an argument that
    [atoi] reads as 0 selects the default, 50 or 1000. *)
Theorem parsed_options_never_zero (cl : list cli_option) (o : options) :
  parse_options atoi initial_options cl = Some o ->
  threshold o <> 0 /\ minDuration o <> 0 /\
  (forall arg, atoi arg = 0 ->
     parse_options atoi initial_options (cl ++ [OptThreshold arg]) =
       Some (mkOptions (inputFile o) (saveImages o) (ffmpeg o)
               DefaultThreshold (minDuration o) (verbose o)) /\
     parse_options atoi initial_options (cl ++ [OptMinDuration arg]) =
       Some (mkOptions (inputFile o) (saveImages o) (ffmpeg o)
               (threshold o) DefaultMinDuration (verbose o))).
Proof.
  intros Hparse.
  destruct (parse_options_nonzero cl initial_options o Hparse) as [Ht Hm].
  { split; discriminate. }
  split; [exact Ht|]. split; [exact Hm|].
  intros arg Harg.
  assert (Happ : forall o0 tail,
             parse_options atoi o0 cl = Some o ->
             parse_options atoi o0 (cl ++ tail) = parse_options atoi o tail).
  { clear. induction cl as [|opt cl IH]; intros o0 tail H; simpl in *.
    - inversion H. reflexivity.
    - destruct (set_option atoi o0 opt); [apply IH; exact H | discriminate]. }
  rewrite !(Happ _ _ Hparse). simpl. rewrite Harg. split; reflexivity.
Qed.

Lemma parse_options_help (cl : list cli_option) :
  forall o, parse_options atoi o cl = None <-> In OptHelp cl.
Proof.
  induction cl as [|opt cl IH]; intros o; simpl.
  - split; [discriminate | contradiction].
  - destruct opt; simpl; rewrite ?IH;
      try (split; [intros H; right; exact H | intros [H|H]; [discriminate | exact H]]).
    split; [intros _; left; reflexivity | reflexivity].
Qed.

Lemma parse_options_without_in (cl : list cli_option) :
  (forall arg, ~ In (OptIn arg) cl) ->
  forall o o', parse_options atoi o cl = Some o' -> inputFile o' = inputFile o.
Proof.
  induction cl as [|opt cl IH]; intros Hno o o' Hparse; simpl in Hparse.
  - inversion Hparse. reflexivity.
  - destruct (set_option atoi o opt) as [o1|] eqn:Hset; [|discriminate].
    rewrite (IH (fun arg H => Hno arg (or_intror H)) o1 o' Hparse).
    destruct opt; simpl in Hset; inversion Hset; subst; try reflexivity.
    exfalso. apply (Hno optarg). left. reflexivity.
Qed.

(** X16: without arguments, with [--help] anywhere on the command line, or
    without any [--in], the program prints the usage text and returns 0; no
    video is opened, nothing goes to [std::cerr] and no image is written. *)
Theorem usage_runs {Color : Type} (cvtColor : Color -> Mat)
  (show_double : Double.t -> string) (argc : Z) (cl : list cli_option)
  (video : string -> option (Double.t * list Color)) :
  argc < 2 \/ In OptHelp cl \/ (forall arg, ~ In (OptIn arg) cl) ->
  shotsegments atoi cvtColor show_double argc cl video =
  Ret (mkRun 0 usage [] []).
Proof.
  intros H. unfold shotsegments.
  destruct (argc <? 2) eqn:Hargc; [reflexivity|].
  apply Z.ltb_ge in Hargc.
  destruct (parse_options atoi initial_options cl) as [o|] eqn:Hparse;
    [|reflexivity].
  destruct H as [H|[H|H]].
  - lia.
  - apply (proj2 (parse_options_help cl initial_options)) in H.
    rewrite H in Hparse. discriminate.
  - pose proof (parse_options_without_in cl H _ _ Hparse) as Hname.
    unfold main. rewrite Hname. reflexivity.
Qed.

End CommandLineProofs.

Lemma parsed_options_never_zero_witness :
  let atoi := fun s : string => if String.eqb s "80" then 80 else 0 in
  let cl := [OptIn "clip.mp4"; OptThreshold "80"; OptMinDuration "abc"] in
  let o := mkOptions "clip.mp4" false false 80 1000 0 in
  threshold o <> 0 /\ minDuration o <> 0 /\
  (forall arg, atoi arg = 0 ->
     parse_options atoi initial_options (cl ++ [OptThreshold arg]) =
       Some (mkOptions (inputFile o) (saveImages o) (ffmpeg o)
               DefaultThreshold (minDuration o) (verbose o)) /\
     parse_options atoi initial_options (cl ++ [OptMinDuration arg]) =
       Some (mkOptions (inputFile o) (saveImages o) (ffmpeg o)
               (threshold o) DefaultMinDuration (verbose o))).
Proof.
  intros atoi cl o.
  apply (parsed_options_never_zero atoi cl o). reflexivity.
Defined.

Lemma usage_runs_witness :
  shotsegments (fun _ => 0) (fun m : Mat => m) (fun _ => "30") 3
    [OptIn "clip.mp4"; OptHelp] (fun _ => Some (Double.of_Z 30, ten_frames))
  = Ret (mkRun 0 usage [] []).
Proof.
  apply (usage_runs (fun _ => 0) (fun m : Mat => m) (fun _ => "30") 3
           [OptIn "clip.mp4"; OptHelp]).
  right. left. simpl. right. left. reflexivity.
Defined.

(** ** The names of the saved images *)

Lemma to_string_nonneg_digits (a : Z) :
  0 <= a ->
  exists u, NilEmpty.uint_of_string (Int.to_string a) = Some u /\
            Z.of_uint u = a.
Proof.
  intros Ha.
  assert (Hu : exists u, Z.to_int a = Decimal.Pos u /\ u <> Decimal.Nil).
  { destruct a as [|p|p]; try lia.
    - exists (Decimal.D0 Decimal.Nil). split; [reflexivity | discriminate].
    - exists (Pos.to_uint p). split; [reflexivity|]. intros Hnil.
      pose proof (DecimalZ.of_to (Zpos p)) as H. simpl in H.
      rewrite Hnil in H. discriminate. }
  destruct Hu as (u & Hu & Hnil). exists u. split.
  - unfold Int.to_string. rewrite Hu. cbn [NilZero.string_of_int].
    pose proof (NilZero.usu u Hnil) as H. unfold NilZero.uint_of_string in H.
    destruct (NilZero.string_of_uint u); [discriminate | exact H].
  - pose proof (DecimalZ.of_to a) as H. rewrite Hu in H. exact H.
Qed.

(** The zero-filled field of a non-negative number reads back as the
    number. *)
Lemma padded_value (k : nat) (a : Z) :
  0 <= a ->
  option_map Z.of_uint
    (NilEmpty.uint_of_string (replicate k "0" ++ Int.to_string a)) = Some a.
Proof.
  intros Ha. destruct (to_string_nonneg_digits a Ha) as (u & Hu & Hv).
  assert (H : exists d, NilEmpty.uint_of_string
                          (replicate k "0" ++ Int.to_string a) = Some d /\
                        Z.of_uint d = a).
  { induction k as [|k (d & Hd & Hdv)]; [exists u; split; assumption|].
    exists (Decimal.D0 d). cbn [replicate append NilEmpty.uint_of_string].
    rewrite Hd. split; [reflexivity | exact Hdv]. }
  destruct H as (d & Hd & Hdv). rewrite Hd. simpl. rewrite Hdv. reflexivity.
Qed.

Lemma setw_zero_inj (w : nat) (a b : Z) :
  0 <= a -> 0 <= b ->
  setw w "0" (Int.to_string a) = setw w "0" (Int.to_string b) -> a = b.
Proof.
  intros Ha Hb H. unfold setw in H.
  apply (f_equal (fun s => option_map Z.of_uint (NilEmpty.uint_of_string s))) in H.
  rewrite !padded_value in H by assumption. inversion H. reflexivity.
Qed.

Lemma append_tails (s1 s2 t1 t2 : string) :
  String.length t1 = String.length t2 ->
  s1 ++ t1 = s2 ++ t2 -> s1 = s2 /\ t1 = t2.
Proof.
  intros Hlen. revert s2. induction s1 as [|a s1 IH]; intros [|b s2] H;
    simpl in H.
  - split; [reflexivity | exact H].
  - apply (f_equal String.length) in H. simpl in H.
    rewrite length_append in H. lia.
  - apply (f_equal String.length) in H. simpl in H.
    rewrite length_append in H. lia.
  - inversion H as [[Hab H']]. destruct (IH _ H') as [-> ->].
    split; reflexivity.
Qed.

Lemma image_key_name_inj (k1 k2 : Z) :
  0 <= k1 -> 0 <= k2 -> image_key_name k1 = image_key_name k2 -> k1 = k2.
Proof.
  intros H1 H2 H. unfold image_key_name, save_name in H.
  assert (Hq1 : 0 <= k1 / 2) by (apply Z.div_pos; lia).
  assert (Hq2 : 0 <= k2 / 2) by (apply Z.div_pos; lia).
  pose proof (Z.div_mod k1 2 ltac:(lia)) as D1.
  pose proof (Z.div_mod k2 2 ltac:(lia)) as D2.
  rewrite Zmod_even in D1, D2.
  destruct (Z.even k1) eqn:E1; destruct (Z.even k2) eqn:E2.
  - apply append_tails in H as [H _]; [|reflexivity].
    apply setw_zero_inj in H; lia.
  - exfalso.
    change ("-" ++ "in" ++ ".jpg") with ("-" ++ "in.jpg") in H.
    change ("-" ++ "out" ++ ".jpg") with ("-o" ++ "ut.jpg") in H.
    rewrite <- !append_assoc in H.
    apply append_tails in H as [_ H]; [discriminate | reflexivity].
  - exfalso.
    change ("-" ++ "in" ++ ".jpg") with ("-" ++ "in.jpg") in H.
    change ("-" ++ "out" ++ ".jpg") with ("-o" ++ "ut.jpg") in H.
    rewrite <- !append_assoc in H.
    apply append_tails in H as [_ H]; [discriminate | reflexivity].
  - apply append_tails in H as [H _]; [|reflexivity].
    apply setw_zero_inj in H; lia.
Qed.

Lemma cut_images_keys (c : Z) : cut_images c = map image_key_name (cut_keys c).
Proof.
  unfold cut_images, cut_keys, image_key_name. cbn [map].
  replace (Z.even (2 * c - 1)) with false.
  2:{ replace (2 * c - 1) with (1 + 2 * (c - 1)) by lia.
      rewrite Z.even_add_mul_2. reflexivity. }
  replace (Z.even (2 * c)) with true.
  2:{ replace (2 * c) with (0 + 2 * c) by lia.
      rewrite Z.even_add_mul_2. reflexivity. }
  replace ((2 * c - 1) / 2) with (c - 1)
    by (apply Z.div_unique with (r := 1); lia).
  replace (2 * c / 2) with c by (apply Z.div_unique with (r := 0); lia).
  reflexivity.
Qed.

Lemma image_names_keys (cuts : list Z) (n : Z) :
  image_names cuts n =
  map image_key_name (0 :: flat_map cut_keys cuts ++ [2 * n - 1])%list.
Proof.
  unfold image_names. cbn [map]. rewrite map_app. cbn [map].
  f_equal. f_equal.
  - induction cuts as [|c cuts IH]; [reflexivity|].
    cbn [flat_map]. rewrite map_app, IH, cut_images_keys. reflexivity.
  - unfold image_key_name.
    replace (Z.even (2 * n - 1)) with false.
    2:{ replace (2 * n - 1) with (1 + 2 * (n - 1)) by lia.
        rewrite Z.even_add_mul_2. reflexivity. }
    replace ((2 * n - 1) / 2) with (n - 1)
      by (apply Z.div_unique with (r := 1); lia).
    reflexivity.
Qed.

Lemma keys_increasing (n : Z) (cuts : list Z) :
  StronglySorted Z.lt cuts ->
  forall lo,
    Forall (fun c => lo < c <= n - 1) cuts -> lo <= n - 1 ->
    StronglySorted Z.lt (flat_map cut_keys cuts ++ [2 * n - 1]) /\
    Forall (fun k => 2 * lo < k) (flat_map cut_keys cuts ++ [2 * n - 1]).
Proof.
  induction 1 as [|c cuts Hs IH Hc]; intros lo Hlo Hn.
  - cbn [flat_map app]. split; [repeat constructor|].
    constructor; [lia | constructor].
  - inversion Hlo as [|? ? Hc0 Hrest]; subst.
    destruct (IH c) as (Hsorted & Hall).
    { rewrite Forall_forall in *. intros x Hx.
      specialize (Hc x Hx). specialize (Hrest x Hx). simpl in Hrest. lia. }
    { lia. }
    cbn [flat_map cut_keys app]. split.
    + constructor; [constructor; [exact Hsorted|]|].
      * exact Hall.
      * constructor; [lia|]. eapply Forall_impl; [|exact Hall].
        cbv beta. intros; lia.
    + constructor; [lia|]. constructor; [lia|].
      eapply Forall_impl; [|exact Hall]. cbv beta. intros; lia.
Qed.

Lemma image_names_NoDup (thr : Z) (gs : list Mat) :
  (1 <= List.length gs)%nat ->
  NoDup (image_names (detected_cuts thr gs) (Z.of_nat (List.length gs))).
Proof.
  intros Hn. rewrite image_names_keys.
  set (n := Z.of_nat (List.length gs)).
  destruct (keys_increasing n (detected_cuts thr gs)
              (detected_cuts_increasing thr gs) 0) as (Hs & Hall).
  { apply Forall_forall. intros z Hz.
    apply detected_cuts_In in Hz as (i & -> & Hi & _). unfold n. lia. }
  { unfold n. lia. }
  apply NoDup_map_NoDup_ForallPairs.
  - intros k1 k2 H1 H2. apply image_key_name_inj.
    + destruct H1 as [<-|H1]; [lia|]. rewrite Forall_forall in Hall.
      specialize (Hall _ H1). simpl in Hall. lia.
    + destruct H2 as [<-|H2]; [lia|]. rewrite Forall_forall in Hall.
      specialize (Hall _ H2). simpl in Hall. lia.
  - apply increasing_NoDup. constructor; [exact Hs|].
    eapply Forall_impl; [|exact Hall]. simpl. intros; lia.
Qed.

(** X17: no image of a run overwrites another: the names of the files that
    the scan writes are pairwise different. *)
Theorem saved_images_distinct {Color : Type} (cvtColor : Color -> Mat)
  (o : options) (r c : Z) (video : list Color) :
  frame_dims r c ->
  video <> [] ->
  Forall (has_size r c) (map cvtColor video) ->
  Z.of_nat (List.length video) <= Int.max ->
  exists st,
    scan cvtColor o video = Ret (Some st) /\
    NoDup (map fst (images st)).
Proof.
  intros Hdims Hne Hgs Hlen.
  destruct (scan_effects cvtColor o r c Hdims video Hne Hgs Hlen)
    as (st & Hscan & _ & _ & _ & Hi & _).
  exists st. split; [exact Hscan|]. rewrite Hi.
  destruct (saveImages o); [|constructor].
  rewrite <- (length_map cvtColor video). apply image_names_NoDup.
  rewrite length_map. destruct video; [congruence | simpl; lia].
Qed.

Lemma saved_images_distinct_witness :
  exists st,
    scan (fun m : Mat => m) (mkOptions "clip.mp4" true false 50 1 0) ten_frames
    = Ret (Some st) /\
    NoDup (map fst (images st)).
Proof.
  apply (saved_images_distinct (fun m : Mat => m)
           (mkOptions "clip.mp4" true false 50 1 0) 1 1 ten_frames).
  - exact dims_1x1.
  - discriminate.
  - exact ten_frames_sized.
  - unfold Int.max. simpl. lia.
Defined.
